(** * scripts/add_headers.py: licence header insertion for the Go sources

    A shallow embedding of [scripts/add_headers.py] and the properties
    that its specification states about it.

    Data.  A Python [str] is a sequence of Unicode code points: [list N].
    [py "..."] turns an ASCII literal into such a sequence.  The
    dictionaries [DIR_INFO] and [DEFAULT_INFO] are an association list in
    the order of the dict literal and a record.  A [pathlib.Path] is a
    record of the three observations the script makes of it.

    Effects.  Files are read and written and a summary is printed: the
    world is a finite map from path strings to files plus the lines
    printed so far, threaded through a small state-and-exception monad. *)

From Stdlib Require Import String Ascii NArith DecimalString.
From stdpp Require Import base option list gmap.

Local Open Scope N_scope.
Local Open Scope nat_scope.

(** ** Python strings

    Characters are written by their code points: 10 line feed, 13
    carriage return, 32 space, 45 "-", 46 ".", 47 "/", 95 "_", 123 and
    125 the braces. *)

Abbreviation str := (list N).

Definition py (s : string) : str := N_of_ascii <$> list_ascii_of_string s.

Fixpoint str_eqb (a b : str) : bool :=
  match a, b with
  | [], [] => true
  | c :: a', d :: b' => N.eqb c d && str_eqb a' b'
  | _, _ => false
  end.

(** [s.startswith(p)] *)
Fixpoint startswith (s p : str) {struct p} : bool :=
  match p, s with
  | [], _ => true
  | c :: p', d :: s' => N.eqb c d && startswith s' p'
  | _ :: _, [] => false
  end.

(** [s.endswith(p)] *)
Definition endswith (s p : str) : bool := startswith (rev s) (rev p).

(** [sub in s] for strings: [sub] occurs in [s] as a substring. *)
Fixpoint contains (s sub : str) : bool :=
  startswith s sub ||
  match s with
  | [] => false
  | _ :: s' => contains s' sub
  end.

(** [x in l] for a list of strings: some element equals [x]. *)
Definition list_contains (l : list str) (x : str) : bool := existsb (str_eqb x) l.

(** The characters at which [str.splitlines] ends a line. *)
Definition is_linebreak (c : N) : bool :=
  (N.eqb c 10 || N.eqb c 11 || N.eqb c 12 || N.eqb c 13 || N.eqb c 28
   || N.eqb c 29 || N.eqb c 30 || N.eqb c 133 || N.eqb c 8232 || N.eqb c 8233)%bool.

(** The characters [str.strip] and [str.split] treat as whitespace
    ([str.isspace]). *)
Definition is_space (c : N) : bool :=
  (N.leb 9 c && N.leb c 13 || N.leb 28 c && N.leb c 32 || N.eqb c 133
   || N.eqb c 160 || N.eqb c 5760 || N.leb 8192 c && N.leb c 8202
   || N.eqb c 8232 || N.eqb c 8233 || N.eqb c 8239 || N.eqb c 8287
   || N.eqb c 12288)%bool.

(** The code points that UTF-8 does not encode: the surrogates. *)
Definition is_surrogate (c : N) : bool := N.leb 55296 c && N.leb c 57343.

(** [s.encode("utf-8")] succeeds. *)
Definition encodable_b (s : str) : bool := forallb (λ c, negb (is_surrogate c)) s.

(** [s.splitlines()]: the lines of [s] without their terminators; a
    carriage return followed by a line feed is one terminator, and a
    terminator at the very end opens no further line. *)
Fixpoint splitlines (s : str) : list str :=
  match s with
  | [] => []
  | c :: rest =>
      if is_linebreak c then
        if N.eqb c 13 then
          match rest with
          | d :: rest' => if N.eqb d 10 then [] :: splitlines rest' else [] :: splitlines rest
          | [] => [] :: splitlines rest
          end
        else [] :: splitlines rest
      else
        match splitlines rest with
        | [] => [[c]]
        | l :: ls => (c :: l) :: ls
        end
  end.

(** [sep.join(ls)] *)
Fixpoint join (sep : str) (ls : list str) : str :=
  match ls with
  | [] => []
  | [x] => x
  | x :: rest => x ++ sep ++ join sep rest
  end.

(** [s.lstrip()], [s.strip()] *)
Fixpoint lstrip (s : str) : str :=
  match s with
  | [] => []
  | c :: rest => if is_space c then lstrip rest else s
  end.

Definition strip (s : str) : str := rev (lstrip (rev (lstrip s))).

(** [s.split()]: the maximal runs of non-whitespace characters. *)
Fixpoint split (s : str) : list str :=
  match s with
  | [] => []
  | c :: rest =>
      if is_space c then split rest
      else
        match rest with
        | [] => [[c]]
        | d :: _ =>
            if is_space d then [c] :: split rest
            else
              match split rest with
              | w :: ws => (c :: w) :: ws
              | [] => [[c]]
              end
        end
  end.

(** [s.replace(a, b)] for one-character strings [a] and [b]. *)
Definition replace (a b : N) (s : str) : str :=
  (fun c => if N.eqb c a then b else c) <$> s.

(** [s[:-n]] for [n > 0]. *)
Definition drop_last (n : nat) (s : str) : str := take (length s - n) s.

(** [str(n)] for a natural number. *)
Definition decimal (n : nat) : str := py (NilZero.string_of_uint (Nat.to_uint n)).

(** A text given by its lines, each ended by a line feed. *)
Definition text_of (ls : list str) : str := concat ((fun l => l ++ [10%N]) <$> ls).

(** ** The configuration tables (lines 7-99) *)

Record Info := {
  component : str;
  usage_template : str;
  notes : str
}.

(** [DIR_INFO], in the order of the dict literal. *)
Definition DIR_INFO : list (str * Info) :=
  [
    (py "client/cmd/texel-client",
     {| component := py "remote client binary";
        usage_template := py "Invoked by end users to render the server-hosted desktop locally; other tooling wraps this runtime via internal/runtime/client.Run.";
        notes := py "Depends on the client runtime packages; keep it thin so alternate front-ends can reuse the same code." |});
    (py "client/cmd/texel-headless",
     {| component := py "headless client harness";
        usage_template := py "Used in CI and automated tests to validate protocol flows without opening a tcell screen.";
        notes := py "Provides a minimal client for scripted scenarios." |});
    (py "client",
     {| component := py "client runtime support library";
        usage_template := py "Imported by the remote renderer to manage {feature} during live sessions.";
        notes := py "Shared across multiple client binaries and tests." |});
    (py "apps/clock",
     {| component := py "clock status widget";
        usage_template := py "Loaded into the desktop chrome to display time information.";
        notes := py "Uses shared texel primitives for drawing." |});
    (py "apps/statusbar",
     {| component := py "status bar application";
        usage_template := py "Added to desktops to render workspace and mode metadata.";
        notes := py "Works in both local and remote deployments." |});
    (py "apps/texelterm/parser",
     {| component := py "terminal parser module";
        usage_template := py "Consumed by the terminal app when decoding VT sequences.";
        notes := py "Keeps parsing concerns isolated from rendering." |});
    (py "apps/texelterm",
     {| component := py "terminal application";
        usage_template := py "Spawned by desktop factories to provide shell access.";
        notes := py "Wraps PTY management and integrates with the parser package." |});
    (py "apps/welcome",
     {| component := py "welcome application";
        usage_template := py "Presented on new sessions to guide users through the interface.";
        notes := py "Displays static content; simple example app." |});
    (py "internal/effects",
     {| component := py "client effect subsystem";
        usage_template := py "Used by the client runtime to orchestrate {feature} visuals before rendering.";
        notes := py "Centralises every pane and workspace overlay so they can be configured via themes." |});
    (py "internal/runtime/client",
     {| component := py "remote client runtime";
        usage_template := py "Embedded by client binaries to handle {feature} as part of the render/event loop.";
        notes := py "Owns session management, rendering, and protocol interaction for remote front-ends." |});
    (py "internal/runtime/server/testutil",
     {| component := py "server runtime test utilities";
        usage_template := py "Imported by server tests when they need {feature} helpers.";
        notes := py "Not shipped with production binaries; only used in test code." |});
    (py "internal/runtime/server",
     {| component := py "server runtime";
        usage_template := py "Used by texel-server to coordinate {feature} when hosting apps and sessions.";
        notes := py "This package bridges the legacy desktop code with the client/server protocol implementation." |});
    (py "protocol",
     {| component := py "protocol definitions";
        usage_template := py "Shared by clients and servers to encode {feature} messages over the wire.";
        notes := py "Keep changes backward-compatible; any additions require coordinated version bumps." |});
    (py "texel/theme",
     {| component := py "theme subsystem";
        usage_template := py "Accessed by both server and client when reading {feature} from theme configurations.";
        notes := py "Ensures user theme files always contain required defaults." |});
    (py "texel",
     {| component := py "core desktop engine";
        usage_template := py "Used throughout the project to implement {feature} inside the desktop and panes.";
        notes := py "Legacy desktop logic migrated from the monolithic application." |});
    (py "cmd/texel-server",
     {| component := py "server CLI harness";
        usage_template := py "Executed by operators to start the production server that manages sessions.";
        notes := py "Focuses on wiring flags and lifecycle around the internal runtime." |});
    (py "cmd/texel-stress",
     {| component := py "stress harness";
        usage_template := py "Run in integration environments to pressure-test server throughput and protocol stability.";
        notes := py "Spawns multiple client connections to simulate load." |})
  ].

Definition DEFAULT_INFO : Info :=
  {| component := py "Texelation module";
     usage_template := py "Referenced within the project wherever {feature} support is required.";
     notes := py "Part of the Texelation AGPLv3 codebase." |}.

(** [d[key]] and the iteration order of a dict given as an association
    list; a dict has each of its keys once. *)
Fixpoint dict_get (d : list (str * Info)) (key : str) : option Info :=
  match d with
  | [] => None
  | (k, v) :: d' => if str_eqb k key then Some v else dict_get d' key
  end.

Definition keys (d : list (str * Info)) : list str := d.*1.

(** ** choose_info (lines 102-111) *)

(** The test of line 106. *)
Definition matches (relative key : str) : bool :=
  startswith relative (key ++ py "/") || str_eqb relative key.

(** One turn of the loop over the keys: [best_key] after looking at
    [key]. *)
Definition choose_step (relative : str) (best_key : option str) (key : str) : option str :=
  if matches relative key then
    match best_key with
    | None => Some key
    | Some best => if length best <? length key then Some key else best_key
    end
  else best_key.

Definition best_key_in (table : list (str * Info)) (relative : str) : option str :=
  foldl (choose_step relative) None (keys table).

(** The function over an arbitrary table; [if best_key:] is false for
    [None] and for the empty string.  The lookup [table[best_key]]
    cannot miss, [best_key] being one of the keys (lemma
    [best_key_in_table]). *)
Definition choose_info_in (table : list (str * Info)) (relative : str) : Info :=
  match best_key_in table relative with
  | Some (c :: k) => default DEFAULT_INFO (dict_get table (c :: k))
  | Some [] => DEFAULT_INFO
  | None => DEFAULT_INFO
  end.

Definition choose_info (relative : str) : Info := choose_info_in DIR_INFO relative.

(** ** humanise (lines 114-118)

    [name.replace('_', ' ').replace('-', ' ').split()], then the name
    itself when there is no word. *)

Definition humanise (name : str) : str :=
  let words := split (replace 45 32 (replace 95 32 name)) in
  match words with
  | [] => name
  | _ :: _ => join (py " ") words
  end.

(** ** str.format as build_header uses it (line 147)

    [template.format(feature=feature, component=component)].  The
    model covers the templates whose replacement fields are plain names,
    with the escapes [{{] and [}}]: it gives the formatted string, or
    [FormatError] where Python raises (a single brace, a field that
    does not end, an empty, numbered or unknown field name).  A field
    with a conversion, a format specification, an attribute or index
    access or a brace in it is outside the model: [NotModelled], which
    says nothing about what Python does.  The scan goes from left to
    right and stops at the first of these, as Python does.  No template
    of the tables is outside the model or raises (lemma
    [format_tables]). *)

Inductive fmt_state :=
  | Literal
  | Field (name : str).

Inductive formatted :=
  | Formatted (s : str)
  | FormatError
  | NotModelled.

Definition map_formatted (g : str → str) (r : formatted) : formatted :=
  match r with
  | Formatted s => Formatted (g s)
  | FormatError => FormatError
  | NotModelled => NotModelled
  end.

Definition field_value (feature component name : str) : option str :=
  if str_eqb name (py "feature") then Some feature
  else if str_eqb name (py "component") then Some component
  else None.

(** The characters ".", "[", "!", ":" and "{", which make a field more
    than a plain name. *)
Definition special (c : N) : bool :=
  N.eqb c 46 || N.eqb c 91 || N.eqb c 33 || N.eqb c 58 || N.eqb c 123.

Fixpoint format_from (st : fmt_state) (feature component template : str) : formatted :=
  match st, template with
  | Literal, [] => Formatted []
  | Literal, c :: rest =>
      if N.eqb c 123 then
        match rest with
        | d :: rest' =>
            if N.eqb d 123
            then map_formatted (cons 123%N) (format_from Literal feature component rest')
            else format_from (Field []) feature component rest
        | [] => FormatError
        end
      else if N.eqb c 125 then
        match rest with
        | d :: rest' =>
            if N.eqb d 125
            then map_formatted (cons 125%N) (format_from Literal feature component rest')
            else FormatError
        | [] => FormatError
        end
      else map_formatted (cons c) (format_from Literal feature component rest)
  | Field name, [] => FormatError
  | Field name, c :: rest =>
      if N.eqb c 125 then
        if existsb special name then NotModelled
        else
          match field_value feature component (rev name) with
          | Some v => map_formatted (app v) (format_from Literal feature component rest)
          | None => FormatError
          end
      else format_from (Field (c :: name)) feature component rest
  end.

(** The formatted string, if the model has one. *)
Definition format (template feature component : str) : option str :=
  match format_from Literal feature component template with
  | Formatted s => Some s
  | FormatError => None
  | NotModelled => None
  end.

(** ** Paths

    What the script observes of a [pathlib.Path] under [ROOT]. *)
Record Path := {
  path_str : str;   (* str(path) *)
  relative : str;   (* str(path.relative_to(ROOT)) *)
  stem : str        (* path.stem *)
}.

(** The final component of a path string and its stem (the name up to
    its last dot, unless that dot is the first or the last character),
    to build concrete paths. *)
Fixpoint basename (s : str) : str :=
  match s with
  | [] => []
  | c :: rest => if contains rest (py "/") then basename rest
                 else if N.eqb c 47 then rest else s
  end.

Fixpoint find_char (c : N) (s : str) : option nat :=
  match s with
  | [] => None
  | d :: rest => if N.eqb d c then Some 0 else S <$> find_char c rest
  end.

Definition stem_of (name : str) : str :=
  match find_char 46 (rev name) with
  | Some j => if (0 <? j) && (j <? length name - 1) then take (length name - 1 - j) name else name
  | None => name
  end.

(** The path [root/rel]. *)
Definition under (root rel : str) : Path :=
  {| path_str := root ++ py "/" ++ rel;
     relative := rel;
     stem := stem_of (basename rel) |}.

(** ** build_header (lines 121-160) *)

Definition is_bench (base : str) : bool := endswith base (py "_bench_test").

Definition is_test (base : str) : bool :=
  endswith base (py "_test") || endswith base (py "_tests").

(** Lines 127-133: the humanised base name, without its suffix where
    the code cuts it. *)
Definition feature_words (base : str) : str :=
  if is_bench base then humanise (drop_last 11 base)
  else if is_test base then
    (if endswith base (py "_test") then humanise (drop_last 5 base) else humanise base)
  else humanise base.

(** Lines 134-136. *)
Definition feature_of (base : str) : str :=
  match feature_words base with
  | [] => py "main"
  | words => words
  end.

(** Lines 138-147: the summary and the usage text. *)
Definition summary_usage (base : str) (info : Info) : option (str * str) :=
  let feature := feature_of base in
  if is_bench base then
    Some (py "Benchmarks " ++ feature ++ py " performance within the " ++ component info ++ py ".",
          py "Run via `go test -bench` to observe hot-path behaviour under load.")
  else if is_test base then
    Some (py "Exercises " ++ feature ++ py " behaviour to ensure the " ++ component info ++ py " remains reliable.",
          py "Executed during `go test` to guard against regressions.")
  else
    usage ← format (usage_template info) feature (component info);
    Some (py "Implements " ++ feature ++ py " capabilities for the " ++ component info ++ py ".",
          usage).

(** The header lines; [None] when [format] has no string.  Every
    [info] dict has the key ["notes"], so [info.get("notes", ...)] is
    [info["notes"]].  The copyright line holds the code points U+00C2
    and U+00A9 of the source literal. *)
Definition build_header (path : Path) (info : Info) : option (list str) :=
  let rel := relative path in
  let base := stem path in
  '(summary, usage) ← summary_usage base info;
  Some [
    py "// Copyright " ++ [194%N; 169%N] ++ py " 2025 Texelation contributors";
    py "// SPDX-License-Identifier: AGPL-3.0-or-later";
    py "//";
    py "// File: " ++ rel;
    py "// Summary: " ++ summary;
    py "// Usage: " ++ usage;
    py "// Notes: " ++ notes info
  ].

(** ** Files, output and exceptions *)

(** A file: its content as [read_text(encoding="utf-8")] returns it
    ([None] when reading or decoding fails) and whether it can be
    opened for writing. *)
Record File := {
  text : option str;
  writable : bool
}.

Record World := {
  files : gmap str File;   (* by str(path) *)
  stdout : list str        (* the lines printed, oldest first *)
}.

Inductive exn :=
  | NotFound        (* no such file *)
  | ReadFailure     (* unreadable, or not UTF-8 text *)
  | WriteFailure    (* cannot be opened for writing *)
  | EncodeFailure   (* UnicodeEncodeError: the data holds a surrogate *)
  | FormatFailure   (* str.format raises *)
  | Unmodelled.     (* no exception: str.format on a template outside the model *)

Inductive result (A : Type) :=
  | Ok (a : A)
  | Raise (e : exn).
Arguments Ok {A} a.
Arguments Raise {A} e.

(** A computation that reads and changes the world and returns or
    raises; what it changed before raising stays changed. *)
Definition io (A : Type) : Type := World → result A * World.

Definition ret {A} (a : A) : io A := fun w => (Ok a, w).

Definition raise {A} (e : exn) : io A := fun w => (Raise e, w).

Definition bind {A B} (m : io A) (k : A → io B) : io B :=
  fun w =>
    match m w with
    | (Ok a, w') => k a w'
    | (Raise e, w') => (Raise e, w')
    end.

Notation "'let*' x ':=' m 'in' k" := (bind m (fun x => k))
  (at level 10, x name, m at level 100, k at level 200, only parsing).

Definition read_text (path : Path) : io str :=
  fun w =>
    match files w !! path_str path with
    | None => (Raise NotFound, w)
    | Some f =>
        match text f with
        | Some t => (Ok t, w)
        | None => (Raise ReadFailure, w)
        end
    end.

(** [path.write_text(data, encoding="utf-8")] opens the file for
    writing, which empties it, and then encodes and writes [data]: when
    [data] cannot be encoded the call raises and the file stays
    empty. *)
Definition write_text (path : Path) (data : str) : io unit :=
  fun w =>
    match files w !! path_str path with
    | None => (Raise NotFound, w)
    | Some f =>
        if writable f then
          if encodable_b data then
            (Ok tt, {| files := <[path_str path := {| text := Some data; writable := true |}]> (files w);
                       stdout := stdout w |})
          else
            (Raise EncodeFailure,
             {| files := <[path_str path := {| text := Some []; writable := true |}]> (files w);
                stdout := stdout w |})
        else (Raise WriteFailure, w)
    end.

Definition print (line : str) : io unit :=
  fun w => (Ok tt, {| files := files w; stdout := stdout w ++ [line] |}).

Definition or_raise {A} (e : exn) (o : option A) : io A :=
  match o with
  | Some a => ret a
  | None => raise e
  end.

(** ** insert_header (lines 163-179) *)

Definition marker : str := py "SPDX-License-Identifier".

Definition go_build (line : str) : bool := startswith line (py "//go:build").

Definition plus_build (line : str) : bool := startswith line (py "// +build").

Definition blank (line : str) : bool := str_eqb (strip line) [].

(** [while i < len(lines) and p(lines[i]): i += 1] leaves [i] advanced
    by the number of leading lines of [lines[i:]] that satisfy [p]. *)
Fixpoint count_while (p : str → bool) (l : list str) : nat :=
  match l with
  | [] => 0
  | x :: l' => if p x then S (count_while p l') else 0
  end.

Definition skip_while (p : str → bool) (lines : list str) (i : nat) : nat :=
  i + count_while p (drop i lines).

(** Lines 168-174. *)
Definition insert_index (lines : list str) : nat :=
  let i := skip_while go_build lines 0 in
  let i := match lines !! i with
           | Some line => if plus_build line then i + 1 else i
           | None => i
           end in
  skip_while blank lines i.

(** What stands for a header that [build_header] does not give:
    the exception of [str.format], or the end of the model. *)
Definition header_exn (path : Path) (info : Info) : exn :=
  match format_from Literal (feature_of (stem path)) (component info) (usage_template info) with
  | NotModelled => Unmodelled
  | _ => FormatFailure
  end.

Definition insert_header (path : Path) : io unit :=
  let* text := read_text path in
  if list_contains (take 5 (splitlines text)) marker then ret tt
  else
    let lines := splitlines text in
    let insert_idx := insert_index lines in
    let info := choose_info (relative path) in
    let* header := or_raise (header_exn path info) (build_header path info) in
    let new_lines := take insert_idx lines ++ header ++ [[]] ++ drop insert_idx lines in
    write_text path (join [10%N] new_lines ++ [10%N]).

(** ** main (lines 182-189)

    [paths] is the sequence [ROOT.rglob("*.go")] yields. *)
Fixpoint main_loop (paths : list Path) (modified : list Path) : io (list Path) :=
  match paths with
  | [] => ret modified
  | path :: rest =>
      if contains (path_str path) (py "/vendor/") then main_loop rest modified
      else
        let* _ := insert_header path in
        main_loop rest (modified ++ [path])
  end.

Definition main (paths : list Path) : io unit :=
  let* modified := main_loop paths [] in
  print (py "Updated " ++ decimal (length modified) ++ py " Go files").

(** A world with the given text files, all writable, and nothing
    printed. *)
Definition world_of (l : list (Path * str)) : World :=
  {| files := list_to_map ((fun '(p, t) => (path_str p, {| text := Some t; writable := true |})) <$> l);
     stdout := [] |}.

Definition content (w : World) (path : Path) : option str :=
  f ← files w !! path_str path; text f.

(** ** What the specification asks of the resolver *)

(** [info] is what the specification asks for [relative] in [table]:
    the entry of the longest matching key, or the default when no key
    matches. *)
Definition resolves (table : list (str * Info)) (relative : str) (info : Info) : Prop :=
  (∃ key, (key, info) ∈ table
          ∧ matches relative key = true
          ∧ ∀ key', key' ∈ keys table → matches relative key' = true →
                    key' ≠ key → length key' < length key)
  ∨ ((∀ key, key ∈ keys table → matches relative key = false) ∧ info = DEFAULT_INFO).

(** ** What the specification asks of the synthesizer *)

(** The characters between the words of a base name: the separators
    that [humanise] turns into spaces, and whitespace. *)
Definition is_sep (c : N) : bool := N.eqb c 95 || N.eqb c 45 || is_space c.

(** What the two replacements of [humanise] do to one character. *)
Definition norm (c : N) : N :=
  let c' := if N.eqb c 95 then 32%N else c in
  if N.eqb c' 45 then 32%N else c'.

(** A word is a non-empty run of characters that are not separators, a
    gap a non-empty run of separators. *)
Definition is_word (w : str) : Prop := w ≠ [] ∧ Forall (λ c, is_sep c = false) w.

Definition is_gap (g : str) : Prop := g ≠ [] ∧ Forall (λ c, is_sep c = true) g.

(** The word [w] followed by gaps and further words in turn. *)
Fixpoint woven (w : str) (more : list (str * str)) : str :=
  match more with
  | [] => w
  | (g, w') :: more' => w ++ g ++ woven w' more'
  end.

(** [ws] are the words of [s], of which there is at least one: [s] is
    these words with a gap between each two, and separators before the
    first and after the last if any. *)
Definition words_of (s : str) (ws : list str) : Prop :=
  ∃ lead w more trail,
    s = lead ++ woven w more ++ trail
    ∧ Forall (λ c, is_sep c = true) lead
    ∧ is_word w
    ∧ Forall (λ gw, is_gap gw.1 ∧ is_word gw.2) more
    ∧ Forall (λ c, is_sep c = true) trail
    ∧ ws = w :: more.*2.

(** The base name without the suffix that lines 128-133 cut off:
    ["_bench_test"] or ["_test"], not ["_tests"]. *)
Definition cut_suffix (base : str) : str :=
  if is_bench base then drop_last 11 base
  else if endswith base (py "_test") then drop_last 5 base
  else base.

(** The feature derivation in the words of the specification: the
    separators replaced by spaces, collapsed to a space-joined phrase. *)
Definition spec_phrase (stripped : str) : str :=
  join (py " ") (split (replace 45 32 (replace 95 32 stripped))).

(** The label for the derived words: ["main"] when there are none. *)
Definition label (words : str) : str :=
  match words with
  | [] => py "main"
  | _ :: _ => words
  end.


Definition test_usage : str :=
  py "Executed during `go test` to guard against regressions.".

(** ** What the specification asks of the inserter *)

(** A string that UTF-8 encodes; the text and the path of a file that
    can be written back. *)
Definition encodable (s : str) : Prop := Forall (λ c, is_surrogate c = false) s.

Definition encodes (path : Path) (t : str) : Prop :=
  encodable t ∧ encodable (relative path) ∧ encodable (stem path).

(** A string without a line terminator. *)
Definition one_line (s : str) : Prop := Forall (λ c, is_linebreak c = false) s.

(** The lines a rewrite leaves: [header] and an empty line put in
    before line [i] of [lines]. *)
Definition spliced (lines header : list str) (i : nat) : list str :=
  take i lines ++ header ++ [[]] ++ drop i lines.

(** The world after [data] was written to [path]. *)
Definition written (w : World) (path : Path) (data : str) : World :=
  {| files := <[path_str path := {| text := Some data; writable := true |}]> (files w);
     stdout := stdout w |}.

(** [rest] begins with the first line of actual content, after the
    build lines, the optional [// +build] line [A] and the blank lines
    [B]: its first line is not blank and, when nothing was skipped
    between the build lines and it, no directive either. *)
Definition content_starts (A B rest : list str) : Prop :=
  match rest with
  | [] => True
  | line :: _ =>
      blank line = false
      ∧ (A = [] → B = [] → go_build line = false ∧ plus_build line = false)
  end.

(** The dicts [choose_info] can return. *)
Definition tables : list Info := DEFAULT_INFO :: DIR_INFO.*2.

(** ** A sample file *)

Definition codec_path : Path := under (py "/repo") (py "protocol/codec.go").

(** The header [build_header] makes for it. *)
Definition codec_header : list str :=
  [ py "// Copyright " ++ [194%N; 169%N] ++ py " 2025 Texelation contributors";
    py "// SPDX-License-Identifier: AGPL-3.0-or-later";
    py "//";
    py "// File: protocol/codec.go";
    py "// Summary: Implements codec capabilities for the protocol definitions.";
    py "// Usage: Shared by clients and servers to encode codec messages over the wire.";
    py "// Notes: Keep changes backward-compatible; any additions require coordinated version bumps."
  ].

(** The paths of [paths] that [main] hands to [insert_header]. *)
Definition processed (paths : list Path) : list Path :=
  filter (λ p, contains (path_str p) (py "/vendor/") = false) paths.

(** A second sample file, and a file that is no text. *)
Definition frame_path : Path := under (py "/repo") (py "protocol/frame.go").

Definition blob_path : Path := under (py "/repo") (py "assets/blob.go").

Definition blob : File := {| text := None; writable := true |}.

(** ** Runs of several calls *)

(** [k] calls of [insert_header] on [path], one after the other. *)
Definition insert_times (k : nat) (path : Path) (w : World) : World :=
  Nat.iter k (λ w, (insert_header path w).2) w.

(** The lines after [k] rewrites: [k] times the header and an empty
    line, put in before line [i] of [lines]. *)
Definition stacked (lines header : list str) (i k : nat) : list str :=
  take i lines ++ concat (replicate k (header ++ [[]])) ++ drop i lines.

(** A sample file of a vendored package. *)
Definition vendor_path : Path := under (py "/repo") (py "vendor/lib/lib.go").

(** The file of [path] is text and can be written, and text and path
    can be encoded. *)
Definition text_file (w : World) (path : Path) : Prop :=
  ∃ f t, files w !! path_str path = Some f ∧ text f = Some t ∧ writable f = true
         ∧ encodes path t.

(** A string without a brace: [str.format] copies it. *)
Definition brace_free (s : str) : Prop := Forall (λ c, c ≠ 123%N ∧ c ≠ 125%N) s.

(** What a call of [insert_header] on [path] leaves in the file, if
    it touches it, given the file it finds there: the new text, or
    nothing when the new text cannot be encoded. *)
Definition rewrite_of (path : Path) (found : option File) : option str :=
  f ← found;
  t ← text f;
  if list_contains (take 5 (splitlines t)) marker then None
  else
    header ← build_header path (choose_info (relative path));
    if writable f
    then
      let new := text_of (spliced (splitlines t) header (insert_index (splitlines t))) in
      Some (if encodable_b new then new else [])
    else None.

(** A file whose name is not UTF-8: Python shows the byte 0xFF of the
    name as the surrogate U+DCFF. *)
Definition odd_path : Path :=
  under (py "/repo") (py "protocol/" ++ [56575%N] ++ py ".go").

(** * Properties *)

(** ** The functions on small inputs *)

Example splitlines_ex1 : splitlines (py "a" ++ [10%N; 10%N] ++ py "b" ++ [13%N; 10%N]) = [py "a"; []; py "b"].
Proof. reflexivity. Qed.

Example splitlines_ex2 : splitlines [10%N] = [[]] /\ splitlines (py "ab") = [py "ab"].
Proof. split; reflexivity. Qed.

Example split_ex : split (py "  foo bar   baz ") = [py "foo"; py "bar"; py "baz"].
Proof. reflexivity. Qed.

Example strip_ex : strip (py "  a b  ") = py "a b" /\ strip (py "   ") = [].
Proof. split; reflexivity. Qed.

Example decimal_ex : decimal 0 = py "0" /\ decimal 17 = py "17".
Proof. split; reflexivity. Qed.

Example format_ex :
  format (py "a {feature} of {component}, {{x}}") (py "F") (py "C") = Some (py "a F of C, {x}").
Proof. reflexivity. Qed.

Example under_ex :
  stem (under (py "/repo") (py "protocol/codec_test.go")) = py "codec_test"
  /\ stem (under (py "/repo") (py "a.b/.go")) = py ".go"
  /\ stem (under (py "/repo") (py "x.tar.go")) = py "x.tar".
Proof. repeat split; reflexivity. Qed.

Example build_header_scenario :
  build_header (under (py "/repo") (py "protocol/codec.go")) (choose_info (py "protocol/codec.go"))
  = Some [
    py "// Copyright " ++ [194%N; 169%N] ++ py " 2025 Texelation contributors";
    py "// SPDX-License-Identifier: AGPL-3.0-or-later";
    py "//";
    py "// File: protocol/codec.go";
    py "// Summary: Implements codec capabilities for the protocol definitions.";
    py "// Usage: Shared by clients and servers to encode codec messages over the wire.";
    py "// Notes: Keep changes backward-compatible; any additions require coordinated version bumps."
  ].
Proof. reflexivity. Qed.

(** ** Strings *)

Lemma str_eqb_eq (a b : str) : str_eqb a b = true ↔ a = b.
Proof.
  revert b; induction a as [|c a IH]; intros [|d b]; simpl; try (split; [discriminate|congruence]).
  - done.
  - rewrite andb_true_iff, N.eqb_eq, IH. split; [intros [-> ->]; done | intros [= -> ->]; done].
Qed.

Lemma str_eqb_refl (a : str) : str_eqb a a = true.
Proof. by apply str_eqb_eq. Qed.

Lemma str_eqb_neq (a b : str) : str_eqb a b = false ↔ a ≠ b.
Proof.
  destruct (str_eqb a b) eqn:E.
  - apply str_eqb_eq in E. split; [discriminate | congruence].
  - split; [|done]. intros _ H. apply str_eqb_eq in H. congruence.
Qed.

Lemma startswith_spec (s p : str) : startswith s p = true ↔ ∃ t, s = p ++ t.
Proof.
  revert s; induction p as [|c p IH]; intros s; simpl.
  - split; [intros _; by exists s | done].
  - destruct s as [|d s].
    + split; [discriminate | intros [t Ht]; discriminate].
    + rewrite andb_true_iff, N.eqb_eq, IH. split.
      * intros [-> [t ->]]. by exists t.
      * intros [t [= -> ->]]. split; [done | by exists t].
Qed.

Lemma startswith_app (p t : str) : startswith (p ++ t) p = true.
Proof. apply startswith_spec. by exists t. Qed.

Lemma endswith_spec (s p : str) : endswith s p = true ↔ ∃ t, s = t ++ p.
Proof.
  unfold endswith. rewrite startswith_spec. split.
  - intros [t Ht]. exists (rev t).
    rewrite <- (rev_involutive s), Ht, rev_app_distr, rev_involutive. done.
  - intros [t ->]. exists (rev t). by rewrite rev_app_distr.
Qed.

Lemma endswith_app (t p : str) : endswith (t ++ p) p = true.
Proof. apply endswith_spec. by exists t. Qed.


Lemma list_contains_spec (l : list str) (x : str) : list_contains l x = true ↔ x ∈ l.
Proof.
  unfold list_contains. rewrite existsb_exists. split.
  - intros [y [Hy E]]. apply str_eqb_eq in E. subst. by apply list_elem_of_In.
  - intros H. exists x. split; [by apply list_elem_of_In | apply str_eqb_refl].
Qed.

(** ** The resolver *)

Lemma matches_prefix (relative key : str) :
  matches relative key = true → ∃ t, relative = key ++ t.
Proof.
  unfold matches. rewrite orb_true_iff, startswith_spec, str_eqb_eq.
  intros [[t ->] | ->].
  - exists (py "/" ++ t). by rewrite <- app_assoc.
  - exists []. by rewrite app_nil_r.
Qed.

(** Two keys of one length that match the same path are the same key:
    the longest matching key is unique. *)
Lemma matches_same_length (relative k1 k2 : str) :
  matches relative k1 = true → matches relative k2 = true →
  length k1 = length k2 → k1 = k2.
Proof.
  intros [t1 H1]%matches_prefix [t2 H2]%matches_prefix Hlen.
  rewrite H1 in H2. by apply app_inj_1 in H2 as [? _].
Qed.

(** What the loop of lines 104-108 leaves in [best_key], started from
    [acc] and run over [ks]. *)
Lemma choose_loop_none (relative : str) (ks : list str) :
  foldl (choose_step relative) None ks = None →
  ∀ k, k ∈ ks → matches relative k = false.
Proof.
  assert (G : ∀ ks acc, foldl (choose_step relative) acc ks = None →
              acc = None ∧ ∀ k, k ∈ ks → matches relative k = false).
  { clear ks. induction ks as [|k ks IH]; simpl; intros acc H.
    - split; [done | intros k Hk; by apply elem_of_nil in Hk].
    - apply IH in H as [Hstep Hks]. unfold choose_step in Hstep.
      destruct (matches relative k) eqn:Hm.
      + destruct acc as [b|]; [|done]. by destruct (length b <? length k).
      + split; [done|]. intros k' [->|Hk']%elem_of_cons; auto. }
  intros H. by apply G in H as [_ ?].
Qed.

Lemma choose_loop_some (relative : str) (ks : list str) (acc : option str) (best : str) :
  foldl (choose_step relative) acc ks = Some best →
  (acc = Some best ∨ (best ∈ ks ∧ matches relative best = true))
  ∧ (∀ b, acc = Some b → length b ≤ length best)
  ∧ (∀ k, k ∈ ks → matches relative k = true → length k ≤ length best).
Proof.
  revert acc; induction ks as [|k ks IH]; simpl; intros acc H.
  - split; [by left|]. split; [intros b ->; by injection H as -> |].
    intros k Hk; by apply elem_of_nil in Hk.
  - apply IH in H as (Hfrom & Hacc & Hks). unfold choose_step in Hfrom, Hacc.
    destruct (matches relative k) eqn:Hm.
    + destruct acc as [b|].
      * destruct (length b <? length k) eqn:Hlt.
        -- apply Nat.ltb_lt in Hlt. specialize (Hacc k eq_refl).
           split; [|split].
           ++ right. destruct Hfrom as [[= <-] | [? ?]]; split; auto; by constructor.
           ++ intros b' [= <-]. lia.
           ++ intros k' [->|Hk']%elem_of_cons ?; auto.
        -- apply Nat.ltb_ge in Hlt. specialize (Hacc b eq_refl).
           split; [|split].
           ++ destruct Hfrom as [? | [? ?]]; [by left | right; split; auto; by constructor].
           ++ intros b' [= <-]. lia.
           ++ intros k' [->|Hk']%elem_of_cons ?; [lia | auto].
      * specialize (Hacc k eq_refl). split; [|split].
        -- right. destruct Hfrom as [[= <-] | [? ?]]; split; auto; by constructor.
        -- done.
        -- intros k' [->|Hk']%elem_of_cons ?; auto.
    + split; [|split].
      * destruct Hfrom as [? | [? ?]]; [by left | right; split; auto; by constructor].
      * done.
      * intros k' [->|Hk']%elem_of_cons ?; [congruence | auto].
Qed.

Lemma dict_get_elem (d : list (str * Info)) (key : str) :
  key ∈ keys d → ∃ v, dict_get d key = Some v ∧ (key, v) ∈ d.
Proof.
  induction d as [|[k v] d IH]; simpl.
  - intros H; by apply elem_of_nil in H.
  - intros H. destruct (str_eqb k key) eqn:E.
    + apply str_eqb_eq in E as ->. exists v. split; [done | by constructor].
    + apply str_eqb_neq in E. apply elem_of_cons in H as [->|H]; [done|].
      destruct (IH H) as (v' & ? & ?). exists v'. split; [done | by constructor].
Qed.

(** [best_key], when set, is a key of the table: [table[best_key]]
    raises no [KeyError]. *)
Lemma best_key_in_table (table : list (str * Info)) (relative best : str) :
  best_key_in table relative = Some best → is_Some (dict_get table best).
Proof.
  intros H. apply choose_loop_some in H as ([?|[Hin _]] & _); [done|].
  destruct (dict_get_elem _ _ Hin) as (v & -> & _). by eexists.
Qed.


Lemma choose_info_in_resolves (table : list (str * Info)) (relative : str) :
  [] ∉ keys table → resolves table relative (choose_info_in table relative).
Proof.
  intros Hne. unfold choose_info_in.
  destruct (best_key_in table relative) as [best|] eqn:Hbest.
  - apply choose_loop_some in Hbest as ([?|[Hin Hm]] & _ & Hmax); [done|].
    destruct best as [|c k]; [done|].
    destruct (dict_get_elem _ _ Hin) as (v & -> & Hv). simpl.
    left. exists (c :: k). split; [done|]. split; [done|].
    intros key' Hk' Hm' Hneq. specialize (Hmax _ Hk' Hm').
    destruct (decide (length key' = length (c :: k))) as [E|E]; [|lia].
    by pose proof (matches_same_length _ _ _ Hm' Hm E).
  - right. split; [|done]. by apply choose_loop_none.
Qed.

Lemma DIR_INFO_keys_nonempty : [] ∉ keys DIR_INFO.
Proof. intros H. apply list_contains_spec in H. vm_compute in H. discriminate. Qed.

(** The association list is a dict: no key stands in it twice. *)
Lemma DIR_INFO_keys_distinct : NoDup (keys DIR_INFO).
Proof. apply (bool_decide_unpack _). vm_compute. exact I. Qed.

(** C3.  Longest-prefix resolution with fallback.  For every table
    without an empty key, and so for [DIR_INFO], and every relative
    path, [choose_info] returns the entry of the matching key (the path
    equals the key or starts with the key followed by a slash) that is
    strictly longer than every other matching key, and [DEFAULT_INFO]
    when no key matches.  With rules for "a" and "a/b", in either
    order, "a/b/c" resolves to the rule of "a/b" and "a/x" to the rule
    of "a". *)
Theorem choose_info_longest_prefix :
  (∀ table relative,
     [] ∉ keys table → resolves table relative (choose_info_in table relative))
  ∧ (∀ relative, resolves DIR_INFO relative (choose_info relative))
  ∧ (∀ rule_a rule_ab,
       choose_info_in [(py "a", rule_a); (py "a/b", rule_ab)] (py "a/b/c") = rule_ab
       ∧ choose_info_in [(py "a", rule_a); (py "a/b", rule_ab)] (py "a/x") = rule_a
       ∧ choose_info_in [(py "a/b", rule_ab); (py "a", rule_a)] (py "a/b/c") = rule_ab
       ∧ choose_info_in [(py "a/b", rule_ab); (py "a", rule_a)] (py "a/x") = rule_a).
Proof.
  split; [exact choose_info_in_resolves|].
  split; [intros relative; apply choose_info_in_resolves, DIR_INFO_keys_nonempty|].
  intros rule_a rule_ab. repeat split; reflexivity.
Qed.

Lemma choose_info_longest_prefix_witness :
  ([] ∉ keys DIR_INFO)
  ∧ resolves DIR_INFO (py "apps/texelterm/parser/vt.go")
      {| component := py "terminal parser module";
         usage_template := py "Consumed by the terminal app when decoding VT sequences.";
         notes := py "Keeps parsing concerns isolated from rendering." |}.
Proof.
  assert (H : [] ∉ keys DIR_INFO).
  { intros H. apply list_contains_spec in H. vm_compute in H. discriminate. }
  split; [exact H|].
  exact (proj1 choose_info_longest_prefix DIR_INFO (py "apps/texelterm/parser/vt.go") H).
Defined.

(** ** The synthesizer *)

Lemma replace_replace (s : str) : replace 45 32 (replace 95 32 s) = norm <$> s.
Proof. unfold replace. rewrite <- list_fmap_compose. done. Qed.

Lemma norm_sep (c : N) : is_sep c = true → is_space (norm c) = true.
Proof.
  unfold is_sep, norm. destruct (N.eqb c 95) eqn:E1; [done|].
  destruct (N.eqb c 45) eqn:E2; [done|]. done.
Qed.

Lemma norm_nonsep (c : N) : is_sep c = false → norm c = c ∧ is_space c = false.
Proof.
  unfold is_sep, norm. destruct (N.eqb c 95) eqn:E1; [done|].
  destruct (N.eqb c 45) eqn:E2; [done|]. done.
Qed.

Lemma split_gap (g s : str) :
  Forall (λ c, is_sep c = true) g → split (norm <$> (g ++ s)) = split (norm <$> s).
Proof.
  induction 1 as [|c g Hc _ IH]; [done|].
  simpl. by rewrite (norm_sep c Hc).
Qed.

Lemma split_cons_nonspace (c : N) (rest : str) :
  is_space c = false →
  split (c :: rest) =
    match rest with
    | [] => [[c]]
    | d :: _ =>
        if is_space d then [c] :: split rest
        else match split rest with
             | w :: ws => (c :: w) :: ws
             | [] => [[c]]
             end
    end.
Proof. intros H. simpl. by rewrite H. Qed.

Lemma split_word (w s : str) :
  is_word w → (s = [] ∨ ∃ d s', s = d :: s' ∧ is_sep d = true) →
  split (norm <$> (w ++ s)) = w :: split (norm <$> s).
Proof.
  intros [Hne Hw] Hs. induction Hw as [|c w Hc Hw IH]; [done|].
  destruct (norm_nonsep c Hc) as [Hn Hsp]. clear Hne.
  change (norm <$> ((c :: w) ++ s)) with (norm c :: (norm <$> (w ++ s))).
  rewrite Hn, split_cons_nonspace by done. destruct w as [|c' w].
  - destruct Hs as [-> | (d & s' & -> & Hd)]; [done|].
    change (norm <$> ([] ++ d :: s')) with (norm d :: (norm <$> s')).
    cbv beta iota. by rewrite (norm_sep d Hd).
  - rewrite IH by done. inversion Hw as [|? ? Hc' _]; subst.
    destruct (norm_nonsep c' Hc') as [Hn' Hsp'].
    change (norm <$> ((c' :: w) ++ s)) with (norm c' :: (norm <$> (w ++ s))).
    cbv beta iota. by rewrite Hn', Hsp'.
Qed.

Lemma split_woven (w : str) (more : list (str * str)) (trail : str) :
  is_word w → Forall (λ gw, is_gap gw.1 ∧ is_word gw.2) more →
  Forall (λ c, is_sep c = true) trail →
  split (norm <$> (woven w more ++ trail)) = w :: more.*2.
Proof.
  intros Hw Hmore Htrail. revert w Hw.
  induction Hmore as [|[g w'] more [[Hg1 Hg2] Hw'] _ IH]; intros w Hw; simpl in *.
  - rewrite split_word; [|done|].
    + rewrite <- (app_nil_r trail), split_gap by done. done.
    + destruct Htrail as [|d trail Hd _]; [by left | right; eauto].
  - rewrite <- !app_assoc. rewrite split_word; [|done|].
    + rewrite split_gap by done. by rewrite IH.
    + right. destruct Hg2 as [|d g Hd _]; [done|]. simpl. eauto.
Qed.

(** [humanise] on a name made of words: the words, joined by single
    spaces, whatever separators stand before, between and after them. *)
Lemma humanise_woven (lead w : str) (more : list (str * str)) (trail : str) :
  Forall (λ c, is_sep c = true) lead → is_word w →
  Forall (λ gw, is_gap gw.1 ∧ is_word gw.2) more →
  Forall (λ c, is_sep c = true) trail →
  humanise (lead ++ woven w more ++ trail) = join (py " ") (w :: more.*2).
Proof.
  intros Hlead Hw Hmore Htrail. unfold humanise.
  rewrite replace_replace, split_gap, split_woven by done. done.
Qed.

(** [humanise] on a name without a word: the name itself. *)
Lemma humanise_no_word (name : str) :
  Forall (λ c, is_sep c = true) name → humanise name = name.
Proof.
  intros H. unfold humanise.
  rewrite replace_replace, <- (app_nil_r name), split_gap by done. done.
Qed.

Lemma split_words_nonempty (s : str) : Forall (λ w, w ≠ []) (split s).
Proof.
  induction s as [|c s IH]; simpl; [constructor|].
  destruct (is_space c); [done|].
  destruct s as [|d s]; [by repeat constructor|].
  destruct (is_space d).
  - by constructor.
  - destruct (split (d :: s)) as [|w ws]; [by repeat constructor|].
    inversion IH; subst. by constructor.
Qed.

Lemma humanise_empty (name : str) : humanise name = [] ↔ name = [].
Proof.
  split; [|by intros ->].
  unfold humanise. pose proof (split_words_nonempty (replace 45 32 (replace 95 32 name))) as H.
  destruct (split _) as [|w ws]; [done|].
  inversion H as [|? ? Hw _]; subst. destruct w; [done|].
  destruct ws; simpl; discriminate.
Qed.

Example humanise_ex :
  humanise (py "foo_bar-baz") = py "foo bar baz"
  ∧ humanise (py "__foo__bar  baz_") = py "foo bar baz"
  ∧ humanise (py "_-_") = py "_-_"
  ∧ humanise [] = [].
Proof. repeat split; reflexivity. Qed.

(** *** Suffixes *)



Lemma is_bench_app_tests (s : str) : is_bench (s ++ py "_tests") = false.
Proof. unfold is_bench, endswith. rewrite rev_app_distr. reflexivity. Qed.

Lemma endswith_test_app_tests (s : str) : endswith (s ++ py "_tests") (py "_test") = false.
Proof. unfold endswith. rewrite rev_app_distr. reflexivity. Qed.

Lemma is_bench_ends_test (base : str) : is_bench base = true → endswith base (py "_test") = true.
Proof.
  unfold is_bench. rewrite !endswith_spec. intros [t ->].
  exists (t ++ py "_bench"). by rewrite <- app_assoc.
Qed.



Lemma cut_suffix_other (base : str) : endswith base (py "_test") = false → cut_suffix base = base.
Proof.
  intros H. unfold cut_suffix. rewrite H.
  destruct (is_bench base) eqn:E; [|done]. apply is_bench_ends_test in E. congruence.
Qed.

(** Lines 127-133 humanise the base name without its cut suffix. *)
Lemma feature_words_cut (base : str) : feature_words base = humanise (cut_suffix base).
Proof.
  unfold feature_words, cut_suffix, is_test.
  destruct (is_bench base); [done|].
  destruct (endswith base (py "_test")); [done|].
  by destruct (endswith base (py "_tests")).
Qed.

Lemma feature_of_label (base : str) : feature_of base = label (humanise (cut_suffix base)).
Proof. unfold feature_of. rewrite feature_words_cut. by destruct (humanise _). Qed.

Lemma label_nonempty (words : str) : words ≠ [] → label words = words.
Proof. by destruct words. Qed.

(** *** Classification and the feature label *)



Lemma summary_usage_tests (s : str) (info : Info) :
  summary_usage (s ++ py "_tests") info
  = Some (py "Exercises " ++ humanise (s ++ py "_tests") ++ py " behaviour to ensure the "
            ++ component info ++ py " remains reliable.",
          test_usage).
Proof.
  unfold summary_usage, is_test.
  rewrite feature_of_label, cut_suffix_other by apply endswith_test_app_tests.
  rewrite is_bench_app_tests, endswith_test_app_tests, endswith_app.
  rewrite label_nonempty; [done|].
  rewrite humanise_empty. by destruct s.
Qed.

Lemma summary_usage_production (base : str) (info : Info) :
  endswith base (py "_test") = false → endswith base (py "_tests") = false →
  summary_usage base info
  = usage ← format (usage_template info) (label (humanise base)) (component info);
    Some (py "Implements " ++ label (humanise base) ++ py " capabilities for the "
            ++ component info ++ py ".",
          usage).
Proof.
  intros H1 H2. unfold summary_usage, is_test.
  rewrite feature_of_label, cut_suffix_other, H1, H2 by done.
  destruct (is_bench base) eqn:E; [|done]. apply is_bench_ends_test in E. congruence.
Qed.

Lemma woven_cons (c : N) (w : str) (more : list (str * str)) :
  woven (c :: w) more = c :: woven w more.
Proof. by destruct more as [|[g w'] more]. Qed.


(** A name is separators only, or it has words. *)
Lemma name_words (s : str) : Forall (λ c, is_sep c = true) s ∨ ∃ ws, words_of s ws.
Proof.
  induction s as [|c s IH]; [left; constructor|].
  destruct (is_sep c) eqn:E.
  - destruct IH as [IH | (ws & lead & w & more & trail & -> & Hl & Hw & Hm & Ht & ->)].
    + left. by constructor.
    + right. eexists. exists (c :: lead), w, more, trail.
      split; [done|]. split; [by constructor|].
      split; [done|]. split; [done|]. split; [done | reflexivity].
  - right. destruct IH as [IH | (ws & lead & w & more & trail & -> & Hl & Hw & Hm & Ht & ->)].
    + eexists. exists [], [c], [], s.
      split; [done|]. split; [constructor|].
      split; [split; [done | by repeat constructor]|].
      split; [constructor|]. split; [done | reflexivity].
    + destruct lead as [|l lead].
      * eexists. exists [], (c :: w), more, trail. simpl. rewrite woven_cons.
        split; [done|]. split; [constructor|].
        split; [destruct Hw as [_ Hw]; split; [done | by constructor]|].
        split; [done|]. split; [done | reflexivity].
      * eexists. exists [], [c], ((l :: lead, w) :: more), trail. simpl.
        rewrite <- !app_assoc.
        split; [done|]. split; [constructor|].
        split; [split; [done | by repeat constructor]|].
        split; [|split; [done | reflexivity]].
        constructor; [|done]. simpl. split; [|done]. by split.
Qed.

Lemma humanise_words (s : str) (ws : list str) :
  words_of s ws → humanise s = join (py " ") ws.
Proof.
  intros (lead & w & more & trail & -> & Hl & Hw & Hm & Ht & ->).
  by apply humanise_woven.
Qed.






(** C10.  A base name ending with "_tests" is classified as a test and
    keeps its suffix in the feature label: the label is the whole
    humanised base name.  "foo_tests" has the test summary with the
    label "foo tests". *)
Theorem tests_suffix_kept :
  (∀ base info,
     endswith base (py "_tests") = true →
     endswith base (py "_test") = false
     ∧ is_test base = true
     ∧ is_bench base = false
     ∧ cut_suffix base = base
     ∧ feature_of base = humanise base
     ∧ summary_usage base info
       = Some (py "Exercises " ++ humanise base ++ py " behaviour to ensure the "
                 ++ component info ++ py " remains reliable.", test_usage))
  ∧ feature_of (py "foo_tests") = py "foo tests"
  ∧ (∀ info, summary_usage (py "foo_tests") info
             = Some (py "Exercises foo tests behaviour to ensure the " ++ component info
                       ++ py " remains reliable.", test_usage)).
Proof.
  split; [|split; [reflexivity | intros; reflexivity]].
  intros base info [s ->]%endswith_spec.
  pose proof (endswith_test_app_tests s) as Htest.
  split; [done|]. split; [unfold is_test; by rewrite Htest, endswith_app|].
  split; [apply is_bench_app_tests|].
  split; [by apply cut_suffix_other|].
  split; [|apply summary_usage_tests].
  rewrite feature_of_label, cut_suffix_other by done.
  apply label_nonempty. rewrite humanise_empty. by destruct s.
Qed.

Lemma tests_suffix_kept_witness :
  endswith (py "foo_tests") (py "_tests") = true
  ∧ feature_of (py "foo_tests") = humanise (py "foo_tests").
Proof.
  split; [reflexivity|].
  apply (proj1 tests_suffix_kept (py "foo_tests") DEFAULT_INFO). reflexivity.
Defined.

(** C4, as the code has it.  The feature label is "main" when the
    derivation of lines 127-133 gives the empty string, and it does so
    exactly for a base name that is empty once its suffix is cut.  A
    cut name that is not empty but holds no word (separators and
    whitespace only) is its own label, and no label is ever empty. *)
Theorem empty_feature_is_main (base : str) :
  (feature_words base = [] → feature_of base = py "main")
  ∧ (feature_words base = [] ↔ cut_suffix base = [])
  ∧ (cut_suffix base ≠ [] → Forall (λ c, is_sep c = true) (cut_suffix base) →
     feature_of base = cut_suffix base)
  ∧ feature_of base ≠ [].
Proof.
  split; [unfold feature_of; by intros ->|].
  split; [rewrite feature_words_cut; apply humanise_empty|].
  split.
  - intros Hne Hsep. rewrite feature_of_label, humanise_no_word by done.
    by apply label_nonempty.
  - rewrite feature_of_label. by destruct (humanise _).
Qed.

Lemma empty_feature_is_main_witness :
  feature_words (py "_bench_test") = [] ∧ feature_of (py "_bench_test") = py "main".
Proof.
  split; [reflexivity|].
  apply (proj1 (empty_feature_is_main (py "_bench_test"))). reflexivity.
Defined.

(** C4 as stated fails at "__test": what is left of the name, "_", has
    no alphanumeric content and the derivation the specification words
    (separators to spaces, words joined) gives the empty string, but
    the label is "_", not "main". *)
Lemma empty_feature_counterexample :
  cut_suffix (py "__test") = py "_"
  ∧ spec_phrase (cut_suffix (py "__test")) = []
  ∧ feature_of (py "__test") = py "_"
  ∧ feature_of (py "__test") ≠ py "main"
  ∧ build_header (under (py "/repo") (py "pkg/__test.go")) DEFAULT_INFO
    = Some [
        py "// Copyright " ++ [194%N; 169%N] ++ py " 2025 Texelation contributors";
        py "// SPDX-License-Identifier: AGPL-3.0-or-later";
        py "//";
        py "// File: pkg/__test.go";
        py "// Summary: Exercises _ behaviour to ensure the Texelation module remains reliable.";
        py "// Usage: Executed during `go test` to guard against regressions.";
        py "// Notes: Part of the Texelation AGPLv3 codebase."
      ].
Proof. repeat split; try reflexivity. vm_compute. discriminate. Qed.

(** ** The inserter *)


(** ** The inserter *)

(** *** Lines *)

Lemma lstrip_spaces (s : str) : Forall (λ c, is_space c = true) s → lstrip s = [].
Proof. induction 1 as [|c s Hc _ IH]; simpl; [done | by rewrite Hc]. Qed.

Lemma lstrip_nil (s : str) : lstrip s = [] → Forall (λ c, is_space c = true) s.
Proof.
  induction s as [|c s IH]; simpl; [constructor|].
  destruct (is_space c) eqn:E; [|done]. intros H. constructor; auto.
Qed.

Lemma lstrip_head (s : str) :
  match lstrip s with
  | [] => True
  | c :: _ => is_space c = false
  end.
Proof.
  induction s as [|c s IH]; simpl; [done|].
  destruct (is_space c) eqn:E; [done|]. simpl. done.
Qed.

Lemma blank_spec (line : str) : blank line = true ↔ Forall (λ c, is_space c = true) line.
Proof.
  unfold blank, strip. rewrite str_eqb_eq. split.
  - intros H. apply (f_equal (@rev N)) in H. rewrite rev_involutive in H. simpl in H.
    apply lstrip_nil, List.Forall_rev in H. rewrite rev_involutive in H.
    pose proof (lstrip_head line) as Hhead.
    destruct (lstrip line) as [|c l] eqn:E; [by apply lstrip_nil|].
    inversion H; congruence.
  - intros H. by rewrite (lstrip_spaces _ H).
Qed.

Lemma blank_not_directive (line : str) :
  blank line = true → go_build line = false ∧ plus_build line = false.
Proof.
  intros H%blank_spec. unfold go_build, plus_build.
  destruct H as [|c line Hc _]; [done|].
  assert (G : ∀ p, startswith (c :: line) (47%N :: p) = false).
  { intros p. destruct (startswith _ _) eqn:E; [|done].
    apply startswith_spec in E as [t [= -> _]]. discriminate. }
  split; apply G.
Qed.

Lemma plus_build_not_go_build (line : str) : plus_build line = true → go_build line = false.
Proof.
  unfold plus_build. intros [t ->]%startswith_spec. reflexivity.
Qed.

Lemma count_while_app (p : str → bool) (l rest : list str) :
  Forall (λ x, p x = true) l → count_while p (l ++ rest) = length l + count_while p rest.
Proof. induction 1 as [|x l Hx _ IH]; simpl; [done | by rewrite Hx, IH]. Qed.

Lemma count_while_le (p : str → bool) (l : list str) : count_while p l ≤ length l.
Proof. induction l as [|x l IH]; simpl; [done|]. destruct (p x); simpl; lia. Qed.

Lemma insert_index_le (lines : list str) : insert_index lines ≤ length lines.
Proof.
  unfold insert_index, skip_while. simpl. rewrite drop_0.
  pose proof (count_while_le go_build lines) as H1.
  set (i := count_while go_build lines) in *.
  assert (H2 : match lines !! i with
               | Some line => if plus_build line then i + 1 else i
               | None => i
               end ≤ length lines).
  { destruct (lines !! i) as [line|] eqn:E; [|done].
    apply lookup_lt_Some in E. destruct (plus_build line); lia. }
  set (j := match lines !! i with Some _ => _ | None => _ end) in *.
  pose proof (count_while_le blank (drop j lines)) as H3.
  rewrite length_drop in H3. lia.
Qed.

(** The insertion index of lines that begin with build lines [D], at
    most one [// +build] line [A] and blank lines [B]. *)
Lemma insert_index_preamble (D A B rest : list str) :
  Forall (λ l, go_build l = true) D →
  (A = [] ∨ ∃ a, A = [a] ∧ plus_build a = true) →
  Forall (λ l, blank l = true) B →
  content_starts A B rest →
  insert_index (D ++ A ++ B ++ rest) = length (D ++ A ++ B).
Proof.
  intros HD HA HB Hrest. unfold insert_index, skip_while. simpl. rewrite drop_0.
  assert (H1 : count_while go_build (D ++ A ++ B ++ rest) = length D).
  { rewrite count_while_app by done.
    destruct HA as [-> | (a & -> & Ha)]; simpl.
    - destruct HB as [|b B Hb _]; simpl.
      + destruct rest as [|h rest]; simpl; [lia|].
        destruct Hrest as [_ Hh]. destruct (Hh eq_refl eq_refl) as [-> _]. lia.
      + destruct (blank_not_directive b Hb) as [-> _]. lia.
    - rewrite (plus_build_not_go_build a Ha). lia. }
  rewrite H1. rewrite lookup_app_r, Nat.sub_diag by done.
  assert (H2 : match (A ++ B ++ rest) !! 0 with
               | Some line => if plus_build line then length D + 1 else length D
               | None => length D
               end = length D + length A).
  { destruct HA as [-> | (a & -> & Ha)]; simpl.
    - destruct HB as [|b B Hb _]; simpl.
      + destruct rest as [|h rest]; simpl; [lia|].
        destruct Hrest as [_ Hh]. destruct (Hh eq_refl eq_refl) as [_ ->]. lia.
      + destruct (blank_not_directive b Hb) as [_ ->]. lia.
    - rewrite Ha. done. }
  rewrite H2.
  replace (drop (length D + length A) (D ++ A ++ B ++ rest)) with (B ++ rest).
  2:{ rewrite app_assoc, <- length_app, drop_app_length. done. }
  rewrite count_while_app by done.
  assert (H3 : count_while blank rest = 0).
  { destruct rest as [|h rest]; simpl; [done|]. destruct Hrest as [-> _]. done. }
  rewrite H3, !length_app. lia.
Qed.

Example insert_index_ex :
  insert_index [py "//go:build linux"; py "// +build linux"; []; py "package main"; []] = 3
  ∧ insert_index [py "// +build linux"; py "// +build amd64"; py "package main"] = 1
  ∧ insert_index [py "package main"] = 0
  ∧ insert_index [] = 0.
Proof. repeat split; reflexivity. Qed.

(** *** Splitting and joining *)

Lemma splitlines_line (l rest : str) :
  one_line l → splitlines (l ++ 10%N :: rest) = l :: splitlines rest.
Proof.
  induction 1 as [|c l Hc _ IH]; simpl; [done|].
  by rewrite Hc, IH.
Qed.

(** Lines without terminators, joined by line feeds and ended by one,
    split into themselves. *)
Lemma splitlines_join (ls : list str) :
  ls ≠ [] → Forall one_line ls → splitlines (join [10%N] ls ++ [10%N]) = ls.
Proof.
  intros Hne H. induction H as [|l ls Hl Hls IH]; [done|]. clear Hne.
  destruct ls as [|l' ls].
  - simpl. by rewrite splitlines_line.
  - change (join [10%N] (l :: l' :: ls)) with (l ++ [10%N] ++ join [10%N] (l' :: ls)).
    rewrite <- !app_assoc. simpl. rewrite splitlines_line by done.
    f_equal. by apply IH.
Qed.

Lemma splitlines_one_line (s : str) : Forall one_line (splitlines s).
Proof.
  assert (G : ∀ n s, length s ≤ n → Forall one_line (splitlines s)).
  { clear s. induction n as [|n IH]; intros [|c s] Hlen; simpl in *; try constructor; try lia.
    destruct (is_linebreak c) eqn:Hc.
    - assert (IHs : Forall one_line (splitlines s)) by (apply IH; lia).
      destruct (N.eqb c 13); [|constructor; [constructor | done]].
      destruct s as [|d s]; [constructor; [constructor | done]|].
      destruct (N.eqb d 10); [|constructor; [constructor | done]].
      constructor; [constructor|]. apply IH. simpl in Hlen. lia.
    - assert (IHs : Forall one_line (splitlines s)) by (apply IH; lia).
      destruct (splitlines s) as [|l ls]; [by repeat constructor|].
      inversion IHs; subst. constructor; [by constructor | done]. }
  by apply (G (length s)).
Qed.

Lemma text_of_join (ls : list str) : ls ≠ [] → join [10%N] ls ++ [10%N] = text_of ls.
Proof.
  intros Hne. induction ls as [|l ls IH]; [done|]. clear Hne.
  destruct ls as [|l' ls]; [unfold text_of; simpl; by rewrite app_nil_r|].
  change (join [10%N] (l :: l' :: ls)) with (l ++ [10%N] ++ join [10%N] (l' :: ls)).
  rewrite <- !app_assoc, IH by done. unfold text_of. simpl. by rewrite <- !app_assoc.
Qed.

(** *** The header has no line terminator of its own *)

Lemma one_line_app (a b : str) : one_line a → one_line b → one_line (a ++ b).
Proof. apply Forall_app_2. Qed.

Lemma one_line_py_check (s : str) : forallb (λ c, negb (is_linebreak c)) s = true → one_line s.
Proof.
  intros H. apply Forall_forall. intros c Hc%list_elem_of_In.
  rewrite forallb_forall in H. specialize (H c Hc). by destruct (is_linebreak c).
Qed.

Lemma one_line_join_space (ws : list str) : Forall one_line ws → one_line (join (py " ") ws).
Proof.
  induction 1 as [|w ws Hw Hws IH]; [constructor|].
  destruct ws as [|w' ws]; [done|].
  change (join (py " ") (w :: w' :: ws)) with (w ++ py " " ++ join (py " ") (w' :: ws)).
  repeat apply one_line_app; auto. by apply one_line_py_check.
Qed.

Lemma one_line_split (s : str) : one_line s → Forall one_line (split s).
Proof.
  induction 1 as [|c s Hc Hs IH]; simpl; [constructor|].
  destruct (is_space c); [done|].
  destruct s as [|d s]; [by repeat constructor|].
  destruct (is_space d).
  - constructor; [by repeat constructor | done].
  - destruct (split (d :: s)) as [|w ws]; [by repeat constructor|].
    inversion IH; subst. constructor; [by constructor | done].
Qed.

Lemma one_line_humanise (name : str) : one_line name → one_line (humanise name).
Proof.
  intros H. unfold humanise.
  assert (Hn : one_line (replace 45 32 (replace 95 32 name))).
  { rewrite replace_replace. apply Forall_fmap. eapply Forall_impl; [exact H|].
    intros c Hc. simpl. unfold norm.
    destruct (N.eqb c 95); [done|]. by destruct (N.eqb c 45). }
  apply one_line_split in Hn. destruct (split _); [done|].
  by apply one_line_join_space.
Qed.

Lemma one_line_feature_of (base : str) : one_line base → one_line (feature_of base).
Proof.
  intros H. rewrite feature_of_label.
  assert (Hc : one_line (cut_suffix base)).
  { unfold cut_suffix, drop_last.
    destruct (is_bench base); [by apply Forall_take|].
    destruct (endswith base (py "_test")); [by apply Forall_take | done]. }
  apply one_line_humanise in Hc. destruct (humanise _); [by apply one_line_py_check | done].
Qed.

(** What [format_from] gives is made of the template, the two values
    and braces. *)
Lemma format_from_chars (P : N → Prop) (st : fmt_state) (feature component template out : str) :
  P 123%N → P 125%N →
  Forall P feature → Forall P component → Forall P template →
  format_from st feature component template = Formatted out → Forall P out.
Proof.
  intros Hl Hr Hf Hc Ht. revert st out.
  assert (G : ∀ n template, length template ≤ n → Forall P template →
              ∀ st out, format_from st feature component template = Formatted out →
                        Forall P out).
  { clear template Ht. induction n as [|n IH]; intros [|c t] Hlen Ht st out; simpl in *; try lia.
    - destruct st; [|done]. intros [= <-]. constructor.
    - destruct st; [|done]. intros [= <-]. constructor.
    - inversion Ht as [|? ? Hc1 Ht1]; subst.
      assert (IHt : ∀ st out, format_from st feature component t = Formatted out → Forall P out)
        by (apply IH; [lia | done]).
      destruct st as [|name].
      + destruct (N.eqb c 123).
        * destruct t as [|d t]; [done|]. inversion Ht1 as [|? ? Hd Ht2]; subst.
          destruct (N.eqb d 123); [|apply IHt].
          destruct (format_from Literal feature component t) as [o| |] eqn:E; try done.
          intros [= <-]. constructor; [done|].
          eapply (IH t); [simpl in Hlen; lia | done | exact E].
        * destruct (N.eqb c 125).
          -- destruct t as [|d t]; [done|]. inversion Ht1 as [|? ? Hd Ht2]; subst.
             destruct (N.eqb d 125); [|done].
             destruct (format_from Literal feature component t) as [o| |] eqn:E; try done.
             intros [= <-]. constructor; [done|].
             eapply (IH t); [simpl in Hlen; lia | done | exact E].
          -- destruct (format_from Literal feature component t) as [o| |] eqn:E; try done.
             intros [= <-]. constructor; [done|]. by apply (IHt Literal).
      + destruct (N.eqb c 125); [|apply IHt].
        destruct (existsb special name); [done|].
        unfold field_value.
        destruct (str_eqb (rev name) (py "feature")).
        * destruct (format_from Literal feature component t) as [o| |] eqn:E; try done.
          intros [= <-]. apply Forall_app_2; [done|]. by apply (IHt Literal).
        * destruct (str_eqb (rev name) (py "component")); [|done].
          destruct (format_from Literal feature component t) as [o| |] eqn:E; try done.
          intros [= <-]. apply Forall_app_2; [done|]. by apply (IHt Literal). }
  intros st out. by apply (G (length template)).
Qed.

Lemma one_line_format (st : fmt_state) (feature component template out : str) :
  one_line feature → one_line component → one_line template →
  format_from st feature component template = Formatted out → one_line out.
Proof. by apply format_from_chars. Qed.

(** *** The header of a file under the tables *)

Lemma dict_get_some (d : list (str * Info)) (key : str) (v : Info) :
  dict_get d key = Some v → v ∈ d.*2.
Proof.
  induction d as [|[k v'] d IH]; simpl; [done|].
  destruct (str_eqb k key); [intros [= ->]; by constructor|].
  intros H. constructor. by apply IH.
Qed.

Lemma choose_info_tables (relative : str) : choose_info relative ∈ tables.
Proof.
  unfold choose_info, choose_info_in, tables.
  destruct (best_key_in DIR_INFO relative) as [[|c k]|]; try by constructor.
  destruct (dict_get DIR_INFO (c :: k)) as [v|] eqn:E; [|by constructor].
  simpl. constructor. by apply dict_get_some in E.
Qed.

Lemma tables_one_line (info : Info) :
  info ∈ tables →
  one_line (component info) ∧ one_line (usage_template info) ∧ one_line (notes info).
Proof.
  intros Hin%list_elem_of_In.
  assert (H : forallb (λ i, forallb (λ c, negb (is_linebreak c)) (component i)
                            && forallb (λ c, negb (is_linebreak c)) (usage_template i)
                            && forallb (λ c, negb (is_linebreak c)) (notes i)) tables = true)
    by (vm_compute; reflexivity).
  rewrite forallb_forall in H. specialize (H info Hin).
  apply andb_true_iff in H as [[H1 H2]%andb_true_iff H3].
  repeat split; by apply one_line_py_check.
Qed.

(** Whether [format] has a string depends on the template alone. *)
Lemma format_from_formatted (st : fmt_state) (f c f' c' template : str) :
  (∃ o, format_from st f c template = Formatted o) →
  ∃ o', format_from st f' c' template = Formatted o'.
Proof.
  assert (M : ∀ g r, (∃ o, map_formatted g r = Formatted o) ↔ ∃ o, r = Formatted o).
  { intros g [o| |]; simpl; split; intros [o' H]; try done; by eexists. }
  assert (G : ∀ n template, length template ≤ n →
              ∀ st, (∃ o, format_from st f c template = Formatted o) →
                    ∃ o', format_from st f' c' template = Formatted o').
  { clear st template. induction n as [|n IH]; intros [|a t] Hlen st; simpl in *; try lia.
    - destruct st; [by eexists | by intros [? ?]].
    - destruct st; [by eexists | by intros [? ?]].
    - assert (IHt : ∀ st, (∃ o, format_from st f c t = Formatted o) →
                          ∃ o', format_from st f' c' t = Formatted o')
        by (apply IH; lia).
      destruct st as [|name].
      + destruct (N.eqb a 123).
        * destruct t as [|d t]; [done|].
          destruct (N.eqb d 123); [|apply IHt].
          rewrite !M. apply IH. simpl in Hlen. lia.
        * destruct (N.eqb a 125).
          -- destruct t as [|d t]; [done|].
             destruct (N.eqb d 125); [|done].
             rewrite !M. apply IH. simpl in Hlen. lia.
          -- rewrite !M. apply IHt.
      + destruct (N.eqb a 125); [|apply IHt].
        destruct (existsb special name); [done|].
        unfold field_value.
        destruct (str_eqb (rev name) (py "feature")); [rewrite !M; apply IHt|].
        destruct (str_eqb (rev name) (py "component")); [rewrite !M; apply IHt | done]. }
  by apply (G (length template)).
Qed.

(** Every template of the tables has a string, whatever the feature. *)
Lemma format_tables (info : Info) (feature : str) :
  info ∈ tables → is_Some (format (usage_template info) feature (component info)).
Proof.
  intros Hin%list_elem_of_In. unfold format.
  assert (H : forallb (λ i, match format_from Literal [] [] (usage_template i) with
                            | Formatted _ => true
                            | _ => false
                            end) tables = true)
    by (vm_compute; reflexivity).
  rewrite forallb_forall in H. specialize (H info Hin).
  destruct (format_from_formatted Literal [] [] feature (component info) (usage_template info))
    as [o ->]; [|by eexists].
  destruct (format_from Literal [] [] (usage_template info)); [by eexists | done | done].
Qed.

Lemma summary_usage_total (base : str) (info : Info) :
  info ∈ tables → is_Some (summary_usage base info).
Proof.
  intros Hin. unfold summary_usage.
  destruct (is_bench base); [by eexists|].
  destruct (is_test base); [by eexists|].
  destruct (format_tables info (feature_of base) Hin) as [u ->]. by eexists.
Qed.

(** [build_header] has a result on every dict [choose_info] returns:
    [insert_header] never fails in [str.format]. *)
Lemma build_header_total (path : Path) (info : Info) :
  info ∈ tables → is_Some (build_header path info).
Proof.
  intros Hin. unfold build_header.
  destruct (summary_usage_total (stem path) info Hin) as [[s u] ->]. by eexists.
Qed.

Local Ltac one_line_tac :=
  lazymatch goal with
  | |- one_line (_ ++ _) => apply one_line_app; one_line_tac
  | |- one_line (py _) => apply one_line_py_check; vm_compute; reflexivity
  | |- one_line [_; _] => apply one_line_py_check; vm_compute; reflexivity
  | |- _ => assumption
  end.

Lemma summary_usage_one_line (base : str) (info : Info) (summary usage : str) :
  one_line base → info ∈ tables →
  summary_usage base info = Some (summary, usage) → one_line summary ∧ one_line usage.
Proof.
  intros Hb Hin. destruct (tables_one_line info Hin) as (Hc & Ht & _).
  pose proof (one_line_feature_of base Hb) as Hf.
  unfold summary_usage.
  destruct (is_bench base); [|destruct (is_test base)].
  - intros [<- <-]%(inj Some)%pair_equal_spec. split; one_line_tac.
  - intros [<- <-]%(inj Some)%pair_equal_spec. split; one_line_tac.
  - unfold format.
    destruct (format_from Literal (feature_of base) (component info) (usage_template info))
      as [u| |] eqn:E; try done.
    intros [<- <-]%(inj Some)%pair_equal_spec. split; [one_line_tac|].
    by apply (one_line_format Literal (feature_of base) (component info) (usage_template info)).
Qed.

Lemma build_header_one_line (path : Path) (info : Info) (header : list str) :
  one_line (relative path) → one_line (stem path) → info ∈ tables →
  build_header path info = Some header → Forall one_line header.
Proof.
  intros Hr Hs Hin. destruct (tables_one_line info Hin) as (_ & _ & Hn).
  unfold build_header.
  destruct (summary_usage (stem path) info) as [[s u]|] eqn:E; [|done].
  destruct (summary_usage_one_line _ _ _ _ Hs Hin E) as [Hsum Hus].
  intros <-%(inj Some).
  repeat (apply Forall_cons; split; [one_line_tac|]).
  constructor.
Qed.

Lemma build_header_length (path : Path) (info : Info) (header : list str) :
  build_header path info = Some header → length header = 7.
Proof.
  unfold build_header. destruct (summary_usage _ _) as [[s u]|]; [|done]. by intros [= <-].
Qed.

(** *** The characters of what is written *)

Section Chars.
Context (P : N → Prop) (Hsmall : ∀ c, N.ltb c 256 = true → P c).

Lemma literal_chars (s : str) : forallb (λ c, N.ltb c 256) s = true → Forall P s.
Proof.
  intros H. apply Forall_forall. intros c Hc%list_elem_of_In.
  rewrite forallb_forall in H. by apply Hsmall, H.
Qed.

Lemma splitlines_chars (s : str) : Forall P s → Forall (Forall P) (splitlines s).
Proof.
  assert (G : ∀ n s, length s ≤ n → Forall P s → Forall (Forall P) (splitlines s)).
  { clear s. induction n as [|n IH]; intros [|c s] Hlen Hs; simpl in *; try constructor; try lia.
    inversion Hs as [|? ? Hc Hs']; subst.
    assert (IHs : Forall (Forall P) (splitlines s)) by (apply IH; [lia | done]).
    destruct (is_linebreak c).
    - destruct (N.eqb c 13); [|constructor; [constructor | done]].
      destruct s as [|d s]; [constructor; [constructor | done]|].
      destruct (N.eqb d 10); [|constructor; [constructor | done]].
      constructor; [constructor|]. inversion Hs'; subst. apply IH; [simpl in Hlen; lia | done].
    - destruct (splitlines s) as [|l ls]; [by repeat constructor|].
      inversion IHs; subst. constructor; [by constructor | done]. }
  by apply (G (length s)).
Qed.

Lemma split_chars (s : str) : Forall P s → Forall (Forall P) (split s).
Proof.
  induction 1 as [|c s Hc Hs IH]; simpl; [constructor|].
  destruct (is_space c); [done|].
  destruct s as [|d s]; [by repeat constructor|].
  destruct (is_space d).
  - constructor; [by repeat constructor | done].
  - destruct (split (d :: s)) as [|w ws]; [by repeat constructor|].
    inversion IH; subst. constructor; [by constructor | done].
Qed.

Lemma join_space_chars (ws : list str) : Forall (Forall P) ws → Forall P (join (py " ") ws).
Proof.
  induction 1 as [|w ws Hw Hws IH]; [constructor|].
  destruct ws as [|w' ws]; [done|].
  change (join (py " ") (w :: w' :: ws)) with (w ++ py " " ++ join (py " ") (w' :: ws)).
  repeat apply Forall_app_2; auto. by apply literal_chars.
Qed.

Lemma humanise_chars (name : str) : Forall P name → Forall P (humanise name).
Proof.
  intros H. unfold humanise.
  assert (Hn : Forall P (replace 45 32 (replace 95 32 name))).
  { rewrite replace_replace. apply Forall_fmap. eapply Forall_impl; [exact H|].
    intros c Hc. simpl. unfold norm.
    destruct (N.eqb c 95); [by apply Hsmall|]. destruct (N.eqb c 45); [by apply Hsmall | done]. }
  apply split_chars in Hn. destruct (split _); [done|].
  by apply join_space_chars.
Qed.

Lemma feature_of_chars (base : str) : Forall P base → Forall P (feature_of base).
Proof.
  intros H. rewrite feature_of_label.
  assert (Hc : Forall P (cut_suffix base)).
  { unfold cut_suffix, drop_last.
    destruct (is_bench base); [by apply Forall_take|].
    destruct (endswith base (py "_test")); [by apply Forall_take | done]. }
  apply humanise_chars in Hc. destruct (humanise _); [by apply literal_chars | done].
Qed.

Lemma tables_chars (info : Info) :
  info ∈ tables →
  Forall P (component info) ∧ Forall P (usage_template info) ∧ Forall P (notes info).
Proof.
  intros Hin%list_elem_of_In.
  assert (H : forallb (λ i, forallb (λ c, N.ltb c 256) (component i)
                            && forallb (λ c, N.ltb c 256) (usage_template i)
                            && forallb (λ c, N.ltb c 256) (notes i)) tables = true)
    by (vm_compute; reflexivity).
  rewrite forallb_forall in H. specialize (H info Hin).
  apply andb_true_iff in H as [[H1 H2]%andb_true_iff H3].
  repeat split; by apply literal_chars.
Qed.

Local Ltac chars_tac :=
  lazymatch goal with
  | |- Forall P (_ ++ _) => apply Forall_app_2; chars_tac
  | |- Forall P (py _) => apply literal_chars; vm_compute; reflexivity
  | |- Forall P [_; _] => apply literal_chars; vm_compute; reflexivity
  | |- _ => assumption
  end.

Lemma summary_usage_chars (base : str) (info : Info) (summary usage : str) :
  Forall P base → info ∈ tables →
  summary_usage base info = Some (summary, usage) → Forall P summary ∧ Forall P usage.
Proof.
  intros Hb Hin. destruct (tables_chars info Hin) as (Hc & Ht & _).
  pose proof (feature_of_chars base Hb) as Hf.
  unfold summary_usage.
  destruct (is_bench base); [|destruct (is_test base)].
  - intros [<- <-]%(inj Some)%pair_equal_spec. split; chars_tac.
  - intros [<- <-]%(inj Some)%pair_equal_spec. split; chars_tac.
  - unfold format.
    destruct (format_from Literal (feature_of base) (component info) (usage_template info))
      as [u| |] eqn:E; try done.
    intros [<- <-]%(inj Some)%pair_equal_spec. split; [chars_tac|].
    apply (format_from_chars P Literal (feature_of base) (component info) (usage_template info));
      try done; by apply Hsmall.
Qed.

Lemma build_header_chars (path : Path) (info : Info) (header : list str) :
  Forall P (relative path) → Forall P (stem path) → info ∈ tables →
  build_header path info = Some header → Forall (Forall P) header.
Proof.
  intros Hr Hs Hin. destruct (tables_chars info Hin) as (_ & _ & Hn).
  unfold build_header.
  destruct (summary_usage (stem path) info) as [[s u]|] eqn:E; [|done].
  destruct (summary_usage_chars _ _ _ _ Hs Hin E) as [Hsum Hus].
  intros <-%(inj Some).
  repeat (apply Forall_cons; split; [chars_tac|]).
  constructor.
Qed.

Lemma text_of_chars (ls : list str) : Forall (Forall P) ls → Forall P (text_of ls).
Proof.
  induction 1 as [|l ls Hl _ IH]; [constructor|].
  change (text_of (l :: ls)) with ((l ++ [10%N]) ++ text_of ls).
  repeat apply Forall_app_2; [done | | done]. by apply literal_chars.
Qed.

Lemma spliced_chars (path : Path) (t : str) (header : list str) (i : nat) :
  Forall P t → Forall P (relative path) → Forall P (stem path) →
  build_header path (choose_info (relative path)) = Some header →
  Forall P (text_of (spliced (splitlines t) header i)).
Proof.
  intros Ht Hr Hs Hh. apply text_of_chars. unfold spliced.
  pose proof (splitlines_chars t Ht).
  repeat apply Forall_app_2.
  - by apply Forall_take.
  - by apply (build_header_chars path _ header Hr Hs (choose_info_tables (relative path))).
  - by repeat constructor.
  - by apply Forall_drop.
Qed.
End Chars.

Lemma encodable_spec (s : str) : encodable_b s = true ↔ encodable s.
Proof.
  unfold encodable_b, encodable. rewrite forallb_forall, Forall_forall. split.
  - intros H c Hc%list_elem_of_In. apply H in Hc. by destruct (is_surrogate c).
  - intros H c Hc%list_elem_of_In. by rewrite (H c Hc).
Qed.

Lemma small_not_surrogate (c : N) : N.ltb c 256 = true → is_surrogate c = false.
Proof.
  intros H%N.ltb_lt. unfold is_surrogate.
  assert (E : N.leb 55296 c = false) by (apply N.leb_gt; lia). by rewrite E.
Qed.

(** The text of a rewrite can be encoded when the old text and the
    path can. *)
Lemma new_text_encodable (path : Path) (t : str) (header : list str) (i : nat) :
  encodes path t →
  build_header path (choose_info (relative path)) = Some header →
  encodable_b (text_of (spliced (splitlines t) header i)) = true.
Proof.
  intros (Ht & Hr & Hs) Hh. apply encodable_spec.
  by apply (spliced_chars _ small_not_surrogate path).
Qed.

Lemma encodes_new_text (path : Path) (t : str) (header : list str) (i : nat) :
  encodes path t →
  build_header path (choose_info (relative path)) = Some header →
  encodes path (text_of (spliced (splitlines t) header i)).
Proof.
  intros He Hh. pose proof (new_text_encodable path t header i He Hh) as H.
  apply encodable_spec in H. destruct He as (_ & Hr & Hs). by repeat split.
Qed.

Local Ltac encodes_tac := repeat split; apply encodable_spec; vm_compute; reflexivity.

(** *** Runs of insert_header *)

Lemma insert_header_skips (path : Path) (w : World) (f : File) (t : str) :
  files w !! path_str path = Some f → text f = Some t →
  list_contains (take 5 (splitlines t)) marker = true →
  insert_header path w = (Ok tt, w).
Proof.
  intros Hf Ht Hm. unfold insert_header, bind, read_text. by rewrite Hf, Ht, Hm.
Qed.

(** The rewrite, by what is written. *)
Lemma insert_header_writes (path : Path) (w : World) (f : File) (t : str) (header : list str) :
  files w !! path_str path = Some f → text f = Some t → writable f = true →
  list_contains (take 5 (splitlines t)) marker = false →
  build_header path (choose_info (relative path)) = Some header →
  let new := text_of (spliced (splitlines t) header (insert_index (splitlines t))) in
  insert_header path w
  = if encodable_b new then (Ok tt, written w path new)
    else (Raise EncodeFailure, written w path []).
Proof.
  intros Hf Ht Hw Hm Hh. unfold insert_header, bind, read_text, write_text.
  rewrite Hf, Ht, Hm, Hh. simpl. rewrite Hf, Hw.
  rewrite text_of_join; [reflexivity|].
  apply build_header_length in Hh.
  intros H. apply (f_equal length) in H. rewrite !length_app, Hh in H. simpl in H. lia.
Qed.

Lemma insert_header_rewrites (path : Path) (w : World) (f : File) (t : str) (header : list str) :
  files w !! path_str path = Some f → text f = Some t → writable f = true →
  list_contains (take 5 (splitlines t)) marker = false →
  encodes path t →
  build_header path (choose_info (relative path)) = Some header →
  insert_header path w
  = (Ok tt, written w path (text_of (spliced (splitlines t) header (insert_index (splitlines t))))).
Proof.
  intros Hf Ht Hw Hm He Hh.
  rewrite (insert_header_writes path w f t header) by done.
  by rewrite (new_text_encodable path t header _ He Hh).
Qed.

(** A call that raises has changed nothing, unless it raised in the
    encoding: then it has emptied the file. *)
Lemma insert_header_raises (path : Path) (w w' : World) (e : exn) :
  insert_header path w = (Raise e, w') →
  (e ≠ EncodeFailure → w' = w) ∧ (e = EncodeFailure → w' = written w path []).
Proof.
  destruct (files w !! path_str path) as [f|] eqn:Hf.
  2:{ unfold insert_header, bind, read_text. rewrite Hf. by intros [= <- <-]. }
  destruct (text f) as [t|] eqn:Ht.
  2:{ unfold insert_header, bind, read_text. rewrite Hf, Ht. by intros [= <- <-]. }
  destruct (list_contains (take 5 (splitlines t)) marker) eqn:Hm.
  { by rewrite (insert_header_skips path w f t). }
  destruct (build_header_total path _ (choose_info_tables (relative path))) as [header Hh].
  destruct (writable f) eqn:Hw.
  - rewrite (insert_header_writes path w f t header) by done. simpl.
    destruct (encodable_b _); [done|]. by intros [= <- <-].
  - unfold insert_header, bind, read_text, write_text. rewrite Hf, Ht, Hm, Hh. simpl.
    rewrite Hf, Hw. by intros [= <- <-].
Qed.

(** A call prints nothing and leaves every other file alone. *)
Lemma insert_header_frame (path : Path) (w : World) :
  stdout (insert_header path w).2 = stdout w
  ∧ ∀ q, q ≠ path_str path → files (insert_header path w).2 !! q = files w !! q.
Proof.
  unfold insert_header, bind, read_text, write_text, or_raise, ret, raise.
  destruct (files w !! path_str path) as [f|] eqn:Hf; [|done].
  destruct (text f) as [t|]; [|done].
  destruct (list_contains _ _); [done|].
  destruct (build_header _ _); [|done].
  rewrite Hf. destruct (writable f); [|done].
  destruct (encodable_b _); simpl; (split; [done|]); intros q Hq; by rewrite lookup_insert_ne.
Qed.

Lemma spliced_take_drop (lines header : list str) (i : nat) :
  i ≤ length lines →
  take i (spliced lines header i) = take i lines
  ∧ take (length header + 1) (drop i (spliced lines header i)) = header ++ [[]]
  ∧ drop (i + length header + 1) (spliced lines header i) = drop i lines.
Proof.
  intros Hi. unfold spliced.
  assert (Hlen : length (take i lines) = i) by (rewrite length_take; lia).
  split; [|split].
  - rewrite take_app_le by lia. rewrite take_ge by lia. done.
  - rewrite drop_app_ge by lia. rewrite Hlen, Nat.sub_diag, drop_0.
    rewrite app_assoc. rewrite take_app_le by (rewrite length_app; simpl; lia).
    apply take_ge. rewrite length_app. simpl. lia.
  - rewrite drop_app_ge by lia. rewrite Hlen.
    replace (i + length header + 1 - i) with (length (header ++ [[]]))
      by (rewrite length_app; simpl; lia).
    rewrite app_assoc. apply drop_app_length.
Qed.

(** C6.  Where the header goes.  Let a readable and writable file
    without a marker line have lines that begin with build lines [D],
    at most one [// +build] line [A] and blank lines [B], the first
    line of actual content opening [rest].  Then the text that
    [insert_header] writes is [D], [A], [B], the header, one empty line
    and [rest], in this order: the header stands after the whole
    preamble and directly before the content.  The call writes this
    text and returns when UTF-8 can encode it, as it can when it can
    encode the old text and the path; when it cannot, the call raises
    and the file is left empty. *)
Theorem header_after_preamble
    (path : Path) (w : World) (f : File) (t : str) (D A B rest : list str) :
  files w !! path_str path = Some f → text f = Some t → writable f = true →
  list_contains (take 5 (splitlines t)) marker = false →
  splitlines t = D ++ A ++ B ++ rest →
  Forall (λ l, go_build l = true) D →
  (A = [] ∨ ∃ a, A = [a] ∧ plus_build a = true) →
  Forall (λ l, blank l = true) B →
  content_starts A B rest →
  ∃ header,
    build_header path (choose_info (relative path)) = Some header
    ∧ insert_index (splitlines t) = length (D ++ A ++ B)
    ∧ insert_header path w
      = (if encodable_b (text_of (D ++ A ++ B ++ header ++ [[]] ++ rest))
         then (Ok tt, written w path (text_of (D ++ A ++ B ++ header ++ [[]] ++ rest)))
         else (Raise EncodeFailure, written w path []))
    ∧ (encodes path t →
       insert_header path w
       = (Ok tt, written w path (text_of (D ++ A ++ B ++ header ++ [[]] ++ rest)))).
Proof.
  intros Hf Ht Hw Hm Hlines HD HA HB Hrest.
  destruct (build_header_total path _ (choose_info_tables (relative path))) as [header Hh].
  exists header. split; [done|].
  pose proof (insert_index_preamble D A B rest HD HA HB Hrest) as Hi.
  rewrite <- Hlines in Hi. split; [done|].
  assert (Hnew : spliced (splitlines t) header (insert_index (splitlines t))
                 = D ++ A ++ B ++ header ++ [[]] ++ rest).
  { rewrite Hi, Hlines. unfold spliced.
    replace (D ++ A ++ B ++ rest) with ((D ++ A ++ B) ++ rest) by (by rewrite <- !app_assoc).
    by rewrite take_app_length, drop_app_length, <- !app_assoc. }
  split.
  - rewrite (insert_header_writes path w f t header) by done. simpl. by rewrite Hnew.
  - intros He. rewrite (insert_header_rewrites path w f t header) by done. by rewrite Hnew.
Qed.

Lemma header_after_preamble_witness :
  let t := text_of [py "//go:build linux"; []; py "package protocol"] in
  let w := world_of [(codec_path, t)] in
  let f := {| text := Some t; writable := true |} in
  files w !! path_str codec_path = Some f
  ∧ text f = Some t
  ∧ writable f = true
  ∧ list_contains (take 5 (splitlines t)) marker = false
  ∧ splitlines t = [py "//go:build linux"] ++ [] ++ [[]] ++ [py "package protocol"]
  ∧ Forall (λ l, go_build l = true) [py "//go:build linux"]
  ∧ Forall (λ l, blank l = true) [[]]
  ∧ content_starts [] [[]] [py "package protocol"]
  ∧ encodes codec_path t
  ∧ ∃ header,
      build_header codec_path (choose_info (relative codec_path)) = Some header
      ∧ insert_index (splitlines t) = 2
      ∧ insert_header codec_path w
        = (Ok tt, written w codec_path
                    (text_of ([py "//go:build linux"] ++ [] ++ [[]] ++ header ++ [[]]
                              ++ [py "package protocol"]))).
Proof.
  intros t w f.
  assert (H1 : files w !! path_str codec_path = Some f) by (vm_compute; reflexivity).
  assert (H2 : list_contains (take 5 (splitlines t)) marker = false) by reflexivity.
  assert (H3 : splitlines t = [py "//go:build linux"] ++ [] ++ [[]] ++ [py "package protocol"])
    by reflexivity.
  assert (H4 : Forall (λ l, go_build l = true) [py "//go:build linux"])
    by (repeat constructor).
  assert (H5 : Forall (λ l, blank l = true) [[]]) by (repeat constructor).
  assert (H6 : content_starts [] [[]] [py "package protocol"])
    by (split; [reflexivity | discriminate]).
  assert (He : encodes codec_path t) by encodes_tac.
  repeat (split; [assumption || reflexivity|]).
  destruct (header_after_preamble codec_path w f t _ _ _ _
              H1 eq_refl eq_refl H2 H3 H4 (or_introl eq_refl) H5 H6)
    as (header & Hh & Hi & _ & Hrun).
  exists header. split; [exact Hh|]. split; [exact Hi | exact (Hrun He)].
Defined.

Example header_after_preamble_ex :
  let w := world_of [(codec_path, text_of [py "//go:build linux"; []; py "package protocol"])] in
  content (insert_header codec_path w).2 codec_path
  = Some (text_of ([py "//go:build linux"; []] ++ codec_header ++ [[]; py "package protocol"])).
Proof. vm_compute. reflexivity. Qed.

(** C7.  What a rewrite leaves alone.  When [insert_header] rewrites a
    file (readable, writable, no marker line), the new text is the old
    lines with the header and one empty line put in at the insertion
    index, each line ended by a line feed.  For a path without a line
    terminator in it, the new text splits into exactly these lines: the
    lines above the index and the lines below it are the old ones, in
    order, and between them stand the header and the empty line.  No
    other file changes and nothing is printed.  The call writes the new
    text and returns when UTF-8 can encode it, as it can when it can
    encode the old text and the path; when it cannot, the call raises
    and the file is left empty. *)
Theorem insertion_frame (path : Path) (w : World) (f : File) (t : str) :
  files w !! path_str path = Some f → text f = Some t → writable f = true →
  list_contains (take 5 (splitlines t)) marker = false →
  ∃ header new,
    let lines := splitlines t in
    let i := insert_index lines in
    build_header path (choose_info (relative path)) = Some header
    ∧ insert_header path w
      = (if encodable_b new then (Ok tt, written w path new)
         else (Raise EncodeFailure, written w path []))
    ∧ (encodes path t → insert_header path w = (Ok tt, written w path new))
    ∧ i ≤ length lines
    ∧ new = text_of (take i lines ++ header ++ [[]] ++ drop i lines)
    ∧ (one_line (relative path) → one_line (stem path) →
       splitlines new = take i lines ++ header ++ [[]] ++ drop i lines
       ∧ take i (splitlines new) = take i lines
       ∧ take (length header + 1) (drop i (splitlines new)) = header ++ [[]]
       ∧ drop (i + length header + 1) (splitlines new) = drop i lines)
    ∧ stdout (written w path new) = stdout w
    ∧ (∀ q, q ≠ path_str path → files (written w path new) !! q = files w !! q).
Proof.
  intros Hf Ht Hw Hm.
  pose proof (choose_info_tables (relative path)) as Hin.
  destruct (build_header_total path _ Hin) as [header Hh].
  exists header, (text_of (spliced (splitlines t) header (insert_index (splitlines t)))).
  simpl. split; [done|].
  split; [by apply (insert_header_writes path w f t header)|].
  split; [intros He; by apply (insert_header_rewrites path w f t header)|].
  pose proof (insert_index_le (splitlines t)) as Hi.
  split; [done|]. split; [done|].
  split; [|split; [done|]].
  - intros Hr Hs.
    assert (Hsplit : splitlines (text_of (spliced (splitlines t) header (insert_index (splitlines t))))
                     = spliced (splitlines t) header (insert_index (splitlines t))).
    { assert (Hne : spliced (splitlines t) header (insert_index (splitlines t)) ≠ []).
      { intros H. apply (f_equal length) in H. unfold spliced in H.
        rewrite !length_app in H. simpl in H. lia. }
      rewrite <- text_of_join by done. apply splitlines_join; [done|].
      unfold spliced. pose proof (splitlines_one_line t) as Hl.
      repeat apply Forall_app_2.
      - by apply Forall_take.
      - by apply (build_header_one_line path _ header Hr Hs Hin).
      - by repeat constructor.
      - by apply Forall_drop. }
    rewrite Hsplit. split; [done|]. by apply spliced_take_drop.
  - intros q Hq. simpl. by rewrite lookup_insert_ne.
Qed.

Lemma insertion_frame_witness :
  let t := text_of [py "//go:build linux"; []; py "package protocol"; py "func f() {}"] in
  let w := world_of [(codec_path, t)] in
  let f := {| text := Some t; writable := true |} in
  files w !! path_str codec_path = Some f
  ∧ list_contains (take 5 (splitlines t)) marker = false
  ∧ encodes codec_path t
  ∧ ∃ header new,
      build_header codec_path (choose_info (relative codec_path)) = Some header
      ∧ insert_header codec_path w = (Ok tt, written w codec_path new)
      ∧ new = text_of (take (insert_index (splitlines t)) (splitlines t) ++ header ++ [[]]
                       ++ drop (insert_index (splitlines t)) (splitlines t)).
Proof.
  intros t w f.
  assert (H1 : files w !! path_str codec_path = Some f) by (vm_compute; reflexivity).
  assert (H2 : list_contains (take 5 (splitlines t)) marker = false) by reflexivity.
  assert (He : encodes codec_path t) by encodes_tac.
  split; [exact H1|]. split; [exact H2|]. split; [exact He|].
  destruct (insertion_frame codec_path w f t H1 eq_refl eq_refl H2)
    as (header & new & Hh & _ & Hrun & _ & Hnew & _).
  exists header, new. split; [exact Hh|]. split; [exact (Hrun He) | exact Hnew].
Defined.

(** *** The marker test *)

(** The test of line 165 asks for a line that is the marker, not for a
    line that holds it: a file with such a line is left alone. *)
Lemma marker_line_skips (path : Path) (w : World) (f : File) (t : str) :
  files w !! path_str path = Some f → text f = Some t →
  marker ∈ take 5 (splitlines t) →
  insert_header path w = (Ok tt, w).
Proof.
  intros Hf Ht Hm. apply (insert_header_skips path w f t); [done | done |].
  by apply list_contains_spec.
Qed.

(** No line of a header is the marker: each begins with a slash. *)
Lemma header_no_marker (path : Path) (info : Info) (header : list str) :
  build_header path info = Some header → marker ∉ header.
Proof.
  unfold build_header. destruct (summary_usage _ _) as [[s u]|]; [|done].
  intros [= <-] H.
  repeat (apply elem_of_cons in H as [H|H]; [discriminate H|]).
  by apply elem_of_nil in H.
Qed.

(** C2 at a failing input.  The file opens with a licence line that
    holds the marker, the marker so occurs within the first five lines,
    and [insert_header] still rewrites the file: no line is equal to
    the marker. *)
Theorem marker_substring_is_rewritten :
  let t := text_of [py "// SPDX-License-Identifier: MIT"; []; py "package protocol"] in
  let w := world_of [(codec_path, t)] in
  contains (py "// SPDX-License-Identifier: MIT") marker = true
  ∧ list_contains (take 5 (splitlines t)) marker = false
  ∧ insert_header codec_path w
    = (Ok tt, written w codec_path
                (text_of (codec_header
                          ++ [[]; py "// SPDX-License-Identifier: MIT"; []; py "package protocol"])))
  ∧ content (insert_header codec_path w).2 codec_path ≠ Some t.
Proof.
  intros t w.
  assert (Hm : list_contains (take 5 (splitlines t)) marker = false) by reflexivity.
  split; [reflexivity|]. split; [exact Hm|].
  assert (Hrun : insert_header codec_path w
    = (Ok tt, written w codec_path
                (text_of (codec_header
                          ++ [[]; py "// SPDX-License-Identifier: MIT"; []; py "package protocol"])))).
  { rewrite (insert_header_rewrites codec_path w {| text := Some t; writable := true |} t
               codec_header); try reflexivity. encodes_tac. }
  split; [exact Hrun|]. rewrite Hrun. vm_compute. discriminate.
Qed.

(** C1 at a failing input.  A second call on the file the first call
    wrote puts a second header in front of the first: the header line
    that holds the marker is not equal to the marker. *)
Theorem second_insert_adds_second_header :
  let t := text_of [py "package protocol"] in
  let w0 := world_of [(codec_path, t)] in
  let w1 := (insert_header codec_path w0).2 in
  let w2 := (insert_header codec_path w1).2 in
  content w1 codec_path = Some (text_of (codec_header ++ [[]; py "package protocol"]))
  ∧ content w2 codec_path
    = Some (text_of (codec_header ++ [[]] ++ codec_header ++ [[]; py "package protocol"]))
  ∧ content w2 codec_path ≠ content w1 codec_path.
Proof.
  intros t w0 w1 w2.
  assert (H1 : content w1 codec_path = Some (text_of (codec_header ++ [[]; py "package protocol"])))
    by (vm_compute; reflexivity).
  assert (H2 : content w2 codec_path
    = Some (text_of (codec_header ++ [[]] ++ codec_header ++ [[]; py "package protocol"])))
    by (vm_compute; reflexivity).
  split; [exact H1|]. split; [exact H2|]. rewrite H1, H2. vm_compute. discriminate.
Qed.

(** *** Runs of main *)

Lemma main_loop_app (pre post : list Path) (acc : list Path) (w : World) :
  main_loop (pre ++ post) acc w
  = match main_loop pre acc w with
    | (Ok m, w') => main_loop post m w'
    | (Raise e, w') => (Raise e, w')
    end.
Proof.
  revert acc w. induction pre as [|p pre IH]; intros acc w; simpl; [done|].
  destruct (contains (path_str p) (py "/vendor/")); [apply IH|].
  unfold bind. destruct (insert_header p w) as [[[]|e] w']; [apply IH | done].
Qed.

(** A loop that comes to its end has appended every path it did not
    skip as a vendor path, rewritten or not. *)
Lemma main_loop_modified (paths acc m : list Path) (w w' : World) :
  main_loop paths acc w = (Ok m, w') → m = acc ++ processed paths.
Proof.
  revert acc w. induction paths as [|p paths IH]; intros acc w; simpl.
  - intros [= <- _]. by rewrite app_nil_r.
  - unfold processed. rewrite filter_cons.
    destruct (contains (path_str p) (py "/vendor/")) eqn:E.
    + rewrite decide_False by done. apply IH.
    + rewrite decide_True by done. unfold bind.
      destruct (insert_header p w) as [[[]|e] w1]; [|done].
      intros H%IH. by rewrite <- app_assoc in H.
Qed.

(** The loop prints nothing and touches the files of its paths only. *)
Lemma main_loop_frame (paths acc : list Path) (w : World) :
  stdout (main_loop paths acc w).2 = stdout w
  ∧ ∀ q, q ∉ path_str <$> paths → files (main_loop paths acc w).2 !! q = files w !! q.
Proof.
  revert acc w. induction paths as [|p paths IH]; intros acc w; simpl; [done|].
  destruct (contains (path_str p) (py "/vendor/")).
  - destruct (IH acc w) as [H1 H2]. split; [done|].
    intros q Hq. apply H2. intros ?. apply Hq. by constructor.
  - unfold bind. destruct (insert_header_frame p w) as [F1 F2].
    destruct (insert_header p w) as [[[]|e] w1]; simpl in *.
    + destruct (IH (acc ++ [p]) w1) as [H1 H2]. split; [congruence|].
      intros q Hq. rewrite H2, F2; [done | |].
      * intros ->. apply Hq. by constructor.
      * intros ?. apply Hq. by constructor.
    + split; [done|]. intros q Hq. apply F2. intros ->. apply Hq. by constructor.
Qed.

(** The summary counts the paths handed to [insert_header]. *)
Lemma main_counts_processed (paths : list Path) (w w' : World) :
  main paths w = (Ok tt, w') →
  stdout w' = stdout w ++ [py "Updated " ++ decimal (length (processed paths)) ++ py " Go files"].
Proof.
  unfold main, bind, print.
  destruct (main_loop paths [] w) as [[m|e] w1] eqn:E; [|done].
  intros [= <-]. simpl.
  pose proof (main_loop_frame paths [] w) as [Hout _]. rewrite E in Hout. simpl in Hout.
  apply main_loop_modified in E. simpl in E. by rewrite Hout, E.
Qed.

(** C9 at a failing input.  The one file of the batch has a marker
    line and is left as it is, and the summary still counts it:
    [main] appends every path that [insert_header] returned from. *)
Theorem summary_counts_skipped_file :
  let t := text_of [py "SPDX-License-Identifier"; py "package protocol"] in
  let w := world_of [(codec_path, t)] in
  insert_header codec_path w = (Ok tt, w)
  ∧ main [codec_path] w
    = (Ok tt, {| files := files w; stdout := [py "Updated 1 Go files"] |}).
Proof.
  intros t w.
  assert (H : insert_header codec_path w = (Ok tt, w)).
  { apply (marker_line_skips codec_path w {| text := Some t; writable := true |} t);
      [reflexivity | reflexivity |]. apply list_contains_spec. reflexivity. }
  split; [exact H|].
  unfold main, bind. simpl. unfold bind. rewrite H. reflexivity.
Qed.

(** C8, as the code has it.  [main] catches nothing.  When the files
    of [pre] went through and [insert_header] raises on the next file
    that is no vendor path, [main] raises the same exception there and
    the batch is over: the files of [pre] are as their calls left them,
    no file after the failing one is read or written, and nothing is
    printed, no summary either.  The failing file is as it was when it
    could not be read or opened for writing, and empty when its new
    text could not be encoded. *)
Theorem failure_ends_batch
    (pre post : list Path) (bad : Path) (w w1 w2 : World) (m : list Path) (e : exn) :
  main_loop pre [] w = (Ok m, w1) →
  contains (path_str bad) (py "/vendor/") = false →
  insert_header bad w1 = (Raise e, w2) →
  main (pre ++ bad :: post) w = (Raise e, w2)
  ∧ stdout w2 = stdout w
  ∧ (∀ q, q ∉ path_str <$> (pre ++ [bad]) → files w2 !! q = files w !! q)
  ∧ (e ≠ EncodeFailure → w2 = w1)
  ∧ (e = EncodeFailure → w2 = written w1 bad []).
Proof.
  intros Hpre Hv Hbad.
  pose proof (main_loop_frame pre [] w) as [Hout Hfiles]. rewrite Hpre in Hout, Hfiles.
  pose proof (insert_header_frame bad w1) as [Hout2 Hfiles2]. rewrite Hbad in Hout2, Hfiles2.
  simpl in *.
  split; [|split; [congruence|split]].
  - unfold main, bind. rewrite main_loop_app, Hpre. simpl. rewrite Hv. unfold bind.
    by rewrite Hbad.
  - intros q Hq. rewrite fmap_app in Hq. rewrite Hfiles2, Hfiles; [done | |].
    + intros ?. apply Hq, elem_of_app. by left.
    + intros ->. apply Hq, elem_of_app. right. by constructor.
  - by apply insert_header_raises in Hbad.
Qed.

Lemma failure_ends_batch_witness :
  let t := text_of [py "package protocol"] in
  let w := {| files := <[path_str blob_path := blob]>
                         (files (world_of [(codec_path, t); (frame_path, t)]));
              stdout := [] |} in
  let w1 := written w codec_path (text_of (codec_header ++ [[]; py "package protocol"])) in
  main_loop [codec_path] [] w = (Ok [codec_path], w1)
  ∧ contains (path_str blob_path) (py "/vendor/") = false
  ∧ insert_header blob_path w1 = (Raise ReadFailure, w1)
  ∧ main ([codec_path] ++ blob_path :: [frame_path]) w = (Raise ReadFailure, w1)
  ∧ content w1 frame_path = Some t
  ∧ stdout w1 = [].
Proof.
  intros t w w1.
  assert (H1 : main_loop [codec_path] [] w = (Ok [codec_path], w1)).
  { simpl. unfold bind.
    rewrite (insert_header_rewrites codec_path w {| text := Some t; writable := true |} t
               codec_header); try reflexivity. encodes_tac. }
  assert (H2 : insert_header blob_path w1 = (Raise ReadFailure, w1)).
  { unfold insert_header, bind, read_text.
    replace (files w1 !! path_str blob_path) with (Some blob) by (vm_compute; reflexivity).
    reflexivity. }
  split; [exact H1|]. split; [reflexivity|]. split; [exact H2|].
  split; [exact (proj1 (failure_ends_batch [codec_path] [frame_path] blob_path w w1 w1
                          [codec_path] ReadFailure H1 eq_refl H2))|].
  split; [vm_compute; reflexivity | reflexivity].
Defined.

(** C8 as stated fails on a batch of a file that is no text and a
    text file after it: [main] raises at the first, the second, which
    a call of its own would rewrite, keeps its old text, and no summary
    is printed. *)
Lemma failure_isolation_counterexample :
  let t := text_of [py "package protocol"] in
  let w := {| files := <[path_str blob_path := blob]> (files (world_of [(frame_path, t)]));
              stdout := [] |} in
  main [blob_path; frame_path] w = (Raise ReadFailure, w)
  ∧ content w frame_path = Some t
  ∧ content (insert_header frame_path w).2 frame_path ≠ Some t
  ∧ stdout (main [blob_path; frame_path] w).2 = [].
Proof.
  intros t w.
  assert (H : main [blob_path; frame_path] w = (Raise ReadFailure, w)).
  { unfold main, bind. simpl. unfold bind.
    assert (E : insert_header blob_path w = (Raise ReadFailure, w)).
    { unfold insert_header, bind, read_text.
      replace (files w !! path_str blob_path) with (Some blob) by (vm_compute; reflexivity).
      reflexivity. }
    by rewrite E. }
  split; [exact H|]. split; [vm_compute; reflexivity|].
  split; [vm_compute; discriminate|]. by rewrite H.
Qed.

(** *** A second call *)

Lemma text_of_app (a b : list str) : text_of (a ++ b) = text_of a ++ text_of b.
Proof. unfold text_of. by rewrite fmap_app, concat_app. Qed.

Lemma take5_spliced (lines header : list str) (i : nat) (x : str) :
  length header = 7 → x ∈ take 5 (spliced lines header i) → x ∈ take 5 lines ∨ x ∈ header.
Proof.
  intros Hlen. unfold spliced. rewrite take_app.
  rewrite take_app_le by lia.
  intros [H | H]%elem_of_app.
  - left. rewrite take_take in H.
    replace (5 `min` i) with ((5 `min` i) `min` 5) in H by lia.
    rewrite <- take_take in H. by apply subseteq_take in H.
  - right. by apply subseteq_take in H.
Qed.

Lemma length_text_of_spliced (lines header : list str) (i : nat) :
  length (text_of (spliced lines header i))
  = length (text_of lines) + length (text_of header) + 1.
Proof.
  assert (H : length (text_of lines)
              = length (text_of (take i lines)) + length (text_of (drop i lines))).
  { by rewrite <- length_app, <- text_of_app, take_drop. }
  unfold spliced. rewrite !text_of_app, !length_app, H. simpl. lia.
Qed.

(** The defect of the marker test in general: a file that
    [insert_header] has rewritten is rewritten again by the next call,
    and grows by another header, for every path without a line
    terminator in it. *)
Lemma rewritten_file_is_rewritten_again (path : Path) (w : World) (f : File) (t : str) :
  files w !! path_str path = Some f → text f = Some t → writable f = true →
  list_contains (take 5 (splitlines t)) marker = false →
  encodes path t →
  one_line (relative path) → one_line (stem path) →
  ∃ new new',
    insert_header path w = (Ok tt, written w path new)
    ∧ insert_header path (written w path new) = (Ok tt, written (written w path new) path new')
    ∧ length new < length new'.
Proof.
  intros Hf Ht Hw Hm He Hr Hs.
  pose proof (choose_info_tables (relative path)) as Hin.
  destruct (build_header_total path _ Hin) as [header Hh].
  pose proof (build_header_length _ _ _ Hh) as Hlen.
  set (lines := splitlines t). set (i := insert_index lines).
  set (new := text_of (spliced lines header i)).
  assert (Hsplit : splitlines new = spliced lines header i).
  { assert (Hne : spliced lines header i ≠ []).
    { intros H. apply (f_equal length) in H. unfold spliced in H.
      rewrite !length_app in H. simpl in H. lia. }
    unfold new. rewrite <- text_of_join by done. apply splitlines_join; [done|].
    unfold spliced. pose proof (splitlines_one_line t) as Hl.
    repeat apply Forall_app_2.
    - by apply Forall_take.
    - by apply (build_header_one_line path _ header Hr Hs Hin).
    - by repeat constructor.
    - by apply Forall_drop. }
  assert (Hm' : list_contains (take 5 (splitlines new)) marker = false).
  { destruct (list_contains (take 5 (splitlines new)) marker) eqn:E; [|done].
    apply list_contains_spec in E. rewrite Hsplit in E.
    apply (take5_spliced _ _ _ _ Hlen) in E as [E | E].
    - apply list_contains_spec in E. fold lines in Hm. congruence.
    - by apply header_no_marker in Hh. }
  set (j := insert_index (splitlines new)).
  exists new, (text_of (spliced (splitlines new) header j)).
  split; [by apply (insert_header_rewrites path w f t header)|].
  split.
  - apply (insert_header_rewrites path (written w path new)
             {| text := Some new; writable := true |} new header); try done.
    + simpl. by rewrite lookup_insert_eq.
    + by apply encodes_new_text.
  - rewrite length_text_of_spliced, Hsplit. fold new. lia.
Qed.

(** * Further properties of the code *)

(** ** Where the header goes, for every file *)

Lemma count_while_split (p : str → bool) (l : list str) :
  ∃ pre rest,
    l = pre ++ rest
    ∧ count_while p l = length pre
    ∧ Forall (λ x, p x = true) pre
    ∧ match rest with [] => True | x :: _ => p x = false end.
Proof.
  induction l as [|x l IH]; [by exists [], []|].
  simpl. destruct (p x) eqn:E.
  - destruct IH as (pre & rest & -> & Hc & Hpre & Hrest).
    exists (x :: pre), rest. simpl. rewrite Hc. repeat split; [by constructor | done].
  - by exists [], (x :: l).
Qed.

Lemma lines_preamble (lines : list str) :
  ∃ D A B rest,
    lines = D ++ A ++ B ++ rest
    ∧ Forall (λ l, go_build l = true) D
    ∧ (A = [] ∨ ∃ a, A = [a] ∧ plus_build a = true)
    ∧ Forall (λ l, blank l = true) B
    ∧ content_starts A B rest
    ∧ insert_index lines = length (D ++ A ++ B).
Proof.
  destruct (count_while_split go_build lines) as (D & r1 & -> & _ & HD & Hr1).
  assert (HA : ∃ A r2, r1 = A ++ r2
                 ∧ (A = [] ∨ ∃ a, A = [a] ∧ plus_build a = true)
                 ∧ (A = [] → match r2 with
                              | [] => True
                              | x :: _ => go_build x = false ∧ plus_build x = false
                              end)).
  { destruct r1 as [|a r1]; [exists [], []; by auto|].
    destruct (plus_build a) eqn:E.
    - exists [a], r1. split; [done|]. split; [right; eauto | done].
    - exists [], (a :: r1). by auto. }
  destruct HA as (A & r2 & -> & HA & Hr2).
  destruct (count_while_split blank r2) as (B & rest & -> & _ & HB & Hrest).
  assert (Hstart : content_starts A B rest).
  { unfold content_starts. destruct rest as [|x rest]; [done|].
    split; [done|]. intros -> ->. by apply Hr2. }
  exists D, A, B, rest. repeat split; try done.
  by apply insert_index_preamble.
Qed.

(** X1.  Every sequence of lines is build lines, at most one
    [// +build] line and blank lines, followed by lines that begin with
    the first line of actual content, and the insertion index is the
    length of that preamble: the header never lands inside the
    preamble and never past a line of content. *)
Theorem preamble_exists (lines : list str) :
  ∃ D A B rest,
    lines = D ++ A ++ B ++ rest
    ∧ Forall (λ l, go_build l = true) D
    ∧ (A = [] ∨ ∃ a, A = [a] ∧ plus_build a = true)
    ∧ Forall (λ l, blank l = true) B
    ∧ content_starts A B rest
    ∧ insert_index lines = length (D ++ A ++ B).
Proof. exact (lines_preamble lines). Qed.

(** X2.  Only one [// +build] line is skipped: when a second one
    follows it directly, the insertion index lies between the two, so
    the header is put in above the second [// +build] line. *)
Theorem second_plus_build_line_is_content (D rest : list str) (a1 a2 : str) :
  Forall (λ l, go_build l = true) D →
  plus_build a1 = true → plus_build a2 = true →
  insert_index (D ++ a1 :: a2 :: rest) = length D + 1.
Proof.
  intros HD H1 H2.
  change (D ++ a1 :: a2 :: rest) with (D ++ [a1] ++ [] ++ a2 :: rest).
  rewrite insert_index_preamble; try done.
  - rewrite !length_app. simpl. lia.
  - right. eauto.
  - unfold content_starts. split; [|done].
    destruct (blank a2) eqn:E; [|done].
    apply blank_not_directive in E as [_ E]. congruence.
Qed.

Lemma second_plus_build_line_is_content_witness :
  Forall (λ l, go_build l = true) [py "//go:build linux"]
  ∧ plus_build (py "// +build linux") = true
  ∧ plus_build (py "// +build amd64") = true
  ∧ insert_index ([py "//go:build linux"]
                  ++ py "// +build linux" :: py "// +build amd64" :: [py "package main"])
    = length [py "//go:build linux"] + 1.
Proof.
  assert (H : Forall (λ l, go_build l = true) [py "//go:build linux"]) by (repeat constructor).
  split; [exact H|]. split; [reflexivity|]. split; [reflexivity|].
  exact (second_plus_build_line_is_content [py "//go:build linux"] [py "package main"]
           (py "// +build linux") (py "// +build amd64") H eq_refl eq_refl).
Defined.

(** ** Calls of insert_header *)

Lemma splitlines_text_of (ls : list str) :
  ls ≠ [] → Forall one_line ls → splitlines (text_of ls) = ls.
Proof. intros Hne Hl. rewrite <- text_of_join by done. by apply splitlines_join. Qed.

Lemma header_first_line (path : Path) (info : Info) (header : list str) :
  build_header path info = Some header →
  ∃ line tl, header = line :: tl
             ∧ blank line = false ∧ go_build line = false ∧ plus_build line = false.
Proof.
  unfold build_header. destruct (summary_usage _ _) as [[s u]|]; [|done].
  intros <-%(inj Some). eexists _, _. split; [reflexivity|]. repeat split; reflexivity.
Qed.

Lemma take5_before_header (P header Y : list str) (x : str) :
  length header = 7 → x ∈ take 5 (P ++ header ++ Y) → x ∈ take 5 P ∨ x ∈ header.
Proof.
  intros Hlen. rewrite take_app, take_app_le by lia.
  intros [H | H]%elem_of_app; [by left|]. right. by apply subseteq_take in H.
Qed.

Lemma stacked_S (lines header : list str) (i k : nat) :
  i ≤ length lines →
  spliced (stacked lines header i k) header i = stacked lines header i (S k).
Proof.
  intros Hi. unfold spliced, stacked.
  assert (Hlen : length (take i lines) = i) by (rewrite length_take; lia).
  rewrite <- Hlen at 1 4. rewrite take_app_length, drop_app_length.
  simpl. by rewrite <- !app_assoc.
Qed.

Lemma stacked_one_line (lines header : list str) (i k : nat) :
  Forall one_line lines → Forall one_line header → Forall one_line (stacked lines header i k).
Proof.
  intros Hl Hh. unfold stacked. repeat apply Forall_app_2.
  - by apply Forall_take.
  - induction k as [|k IH]; simpl; [constructor|].
    rewrite <- app_assoc. repeat apply Forall_app_2; [done | by repeat constructor | done].
  - by apply Forall_drop.
Qed.

Lemma stacked_chars (P : N → Prop) (lines header : list str) (i k : nat) :
  Forall (Forall P) lines → Forall (Forall P) header →
  Forall (Forall P) (stacked lines header i k).
Proof.
  intros Hl Hh. unfold stacked. repeat apply Forall_app_2.
  - by apply Forall_take.
  - induction k as [|k IH]; simpl; [constructor|].
    rewrite <- app_assoc. repeat apply Forall_app_2; [done | by repeat constructor | done].
  - by apply Forall_drop.
Qed.

(** The first call and every later one, on a file that had no marker
    line. *)
Lemma insert_times_stacked (path : Path) (w : World) (f : File) (t : str) (header : list str) (k : nat) :
  files w !! path_str path = Some f → text f = Some t → writable f = true →
  list_contains (take 5 (splitlines t)) marker = false →
  encodes path t →
  one_line (relative path) → one_line (stem path) →
  build_header path (choose_info (relative path)) = Some header →
  files (insert_times (S k) path w) !! path_str path
  = Some {| text := Some (text_of (stacked (splitlines t) header (insert_index (splitlines t)) (S k)));
            writable := true |}.
Proof.
  intros Hf Ht Hw Hm He Hr Hs Hh.
  pose proof (choose_info_tables (relative path)) as Hin.
  pose proof (build_header_length _ _ _ Hh) as Hlen.
  pose proof (build_header_one_line path _ header Hr Hs Hin Hh) as Hone.
  pose proof (splitlines_one_line t) as Hlines.
  pose proof (insert_index_le (splitlines t)) as Hi.
  set (lines := splitlines t) in *. set (i := insert_index lines) in *.
  induction k as [|k IH].
  - simpl. rewrite (insert_header_rewrites path w f t header) by done.
    simpl. rewrite lookup_insert_eq. fold lines i. rewrite <- stacked_S by done.
    unfold stacked at 1. simpl. by rewrite take_drop.
  - change (insert_times (S (S k)) path w)
      with ((insert_header path (insert_times (S k) path w)).2).
    set (L := stacked lines header i (S k)) in *.
    assert (Hsplit : splitlines (text_of L) = L).
    { apply splitlines_text_of; [|by apply stacked_one_line].
      intros H. apply (f_equal length) in H. unfold L, stacked in H. simpl in H.
      rewrite !length_app in H. simpl in H. lia. }
    assert (HmL : list_contains (take 5 L) marker = false).
    { destruct (list_contains (take 5 L) marker) eqn:E; [|done].
      apply list_contains_spec in E. unfold L, stacked in E. simpl in E.
      rewrite <- !app_assoc in E.
      apply (take5_before_header _ _ _ _ Hlen) in E as [E | E].
      - rewrite take_take in E.
        replace (5 `min` i) with ((5 `min` i) `min` 5) in E by lia.
        rewrite <- take_take in E. apply subseteq_take in E.
        apply list_contains_spec in E. congruence.
      - by apply header_no_marker in Hh. }
    assert (HiL : insert_index L = i).
    { destruct (lines_preamble lines) as (D & A & B & rest & Hl & HD & HA & HB & _ & Hidx).
      fold i in Hidx.
      assert (HP : take i lines = D ++ A ++ B).
      { rewrite Hidx. rewrite Hl at 1.
        replace (D ++ A ++ B ++ rest) with ((D ++ A ++ B) ++ rest)
          by (by rewrite <- !app_assoc).
        apply take_app_length. }
      destruct (header_first_line _ _ _ Hh) as (l0 & tl & -> & Hb & Hg & Hp).
      unfold L, stacked. rewrite HP. simpl. rewrite <- !app_assoc. simpl.
      rewrite insert_index_preamble; [by rewrite <- HP, length_take; lia | done..|].
      unfold content_starts. by repeat split. }
    assert (HeL : encodes path (text_of L)).
    { destruct He as (Het & Her & Hes). split; [|done].
      apply (text_of_chars _ small_not_surrogate), stacked_chars.
      - by apply splitlines_chars.
      - by apply (build_header_chars _ small_not_surrogate path _ header Her Hes Hin). }
    rewrite (insert_header_rewrites path _ _ (text_of L) header IH)
      by (try done; by rewrite Hsplit).
    simpl. rewrite lookup_insert_eq, Hsplit, HiL. unfold L. by rewrite stacked_S.
Qed.

(** X3.  Every call on a file without a marker line (readable,
    writable, text and path that UTF-8 can encode) adds one more
    header: after [k + 1] calls the file holds its old lines with
    [k + 1] copies of the header, an empty line after each, all at the
    insertion index of the old lines (for a path without a line
    terminator in it).  No number of calls brings the file to rest. *)
Theorem repeated_calls_stack_headers
    (path : Path) (w : World) (f : File) (t : str) (header : list str) (k : nat) :
  files w !! path_str path = Some f → text f = Some t → writable f = true →
  list_contains (take 5 (splitlines t)) marker = false →
  encodes path t →
  one_line (relative path) → one_line (stem path) →
  build_header path (choose_info (relative path)) = Some header →
  content (insert_times (S k) path w) path
  = Some (text_of (stacked (splitlines t) header (insert_index (splitlines t)) (S k))).
Proof.
  intros Hf Ht Hw Hm He Hr Hs Hh. unfold content.
  by rewrite (insert_times_stacked path w f t header k).
Qed.

Lemma repeated_calls_stack_headers_witness :
  let t := text_of [py "//go:build linux"; []; py "package protocol"] in
  let w := world_of [(codec_path, t)] in
  content (insert_times 3 codec_path w) codec_path
  = Some (text_of ([py "//go:build linux"; []]
                   ++ codec_header ++ [[]] ++ codec_header ++ [[]] ++ codec_header ++ [[]]
                   ++ [py "package protocol"])).
Proof.
  intros t w.
  assert (H1 : files w !! path_str codec_path = Some {| text := Some t; writable := true |})
    by (vm_compute; reflexivity).
  assert (Hr : one_line (relative codec_path)) by (apply one_line_py_check; reflexivity).
  assert (Hs : one_line (stem codec_path)) by (apply one_line_py_check; reflexivity).
  assert (He : encodes codec_path t) by encodes_tac.
  exact (repeated_calls_stack_headers codec_path w _ t codec_header 2
           H1 eq_refl eq_refl eq_refl He Hr Hs eq_refl).
Defined.

(** X4.  A rewrite is never a no-op: a readable and writable file
    without a marker line, of a text and a path that UTF-8 can encode,
    has another text after the call (for a path without a line
    terminator in it). *)
Theorem unmarked_file_is_changed (path : Path) (w : World) (f : File) (t : str) :
  files w !! path_str path = Some f → text f = Some t → writable f = true →
  list_contains (take 5 (splitlines t)) marker = false →
  encodes path t →
  one_line (relative path) → one_line (stem path) →
  content (insert_header path w).2 path ≠ Some t.
Proof.
  intros Hf Ht Hw Hm He Hr Hs.
  pose proof (choose_info_tables (relative path)) as Hin.
  destruct (build_header_total path _ Hin) as [header Hh].
  rewrite (insert_header_rewrites path w f t header) by done.
  unfold content. simpl. rewrite lookup_insert_eq. simpl. intros [= H].
  apply (f_equal splitlines) in H. rewrite splitlines_text_of in H.
  - apply (f_equal length) in H. unfold spliced in H. rewrite !length_app in H.
    rewrite length_take, length_drop in H. simpl in H. lia.
  - intros E. apply (f_equal length) in E. unfold spliced in E.
    rewrite !length_app in E. simpl in E. lia.
  - unfold spliced. pose proof (splitlines_one_line t).
    repeat apply Forall_app_2.
    + by apply Forall_take.
    + by apply (build_header_one_line path _ header Hr Hs Hin).
    + by repeat constructor.
    + by apply Forall_drop.
Qed.

Lemma unmarked_file_is_changed_witness :
  let t := text_of [py "package protocol"] in
  let w := world_of [(codec_path, t)] in
  content (insert_header codec_path w).2 codec_path ≠ Some t.
Proof.
  intros t w.
  assert (H1 : files w !! path_str codec_path = Some {| text := Some t; writable := true |})
    by (vm_compute; reflexivity).
  assert (Hr : one_line (relative codec_path)) by (apply one_line_py_check; reflexivity).
  assert (Hs : one_line (stem codec_path)) by (apply one_line_py_check; reflexivity).
  assert (He : encodes codec_path t) by encodes_tac.
  exact (unmarked_file_is_changed codec_path w _ t H1 eq_refl eq_refl eq_refl He Hr Hs).
Defined.

Lemma insert_header_ok (path : Path) (w : World) (f : File) (t : str) :
  files w !! path_str path = Some f → text f = Some t → writable f = true →
  encodes path t →
  (insert_header path w).1 = Ok tt.
Proof.
  intros Hf Ht Hw He.
  destruct (list_contains (take 5 (splitlines t)) marker) eqn:Hm.
  - by rewrite (insert_header_skips path w f t).
  - destruct (build_header_total path _ (choose_info_tables (relative path))) as [header Hh].
    by rewrite (insert_header_rewrites path w f t header).
Qed.

(** X5.  On a file that is text and can be written, whose text and
    path UTF-8 can encode, [insert_header] returns: no content and no
    such path make [str.format], the table lookup or the write
    raise. *)
Theorem insert_header_returns (path : Path) (w : World) (f : File) (t : str) :
  files w !! path_str path = Some f → text f = Some t → writable f = true →
  encodes path t →
  (insert_header path w).1 = Ok tt.
Proof. apply insert_header_ok. Qed.

Lemma insert_header_returns_witness :
  let t := text_of [py "package protocol"] in
  let w := world_of [(codec_path, t)] in
  (insert_header codec_path w).1 = Ok tt.
Proof.
  intros t w.
  assert (H1 : files w !! path_str codec_path = Some {| text := Some t; writable := true |})
    by (vm_compute; reflexivity).
  assert (He : encodes codec_path t) by encodes_tac.
  exact (insert_header_returns codec_path w _ t H1 eq_refl eq_refl He).
Defined.

(** X6.  When [insert_header] raises and what it leaves.  It raises
    exactly when the file is missing, when it cannot be read as text,
    when it has no marker line and cannot be opened for writing, or
    when it has no marker line, is opened for writing and the new text
    cannot be encoded; a file with a marker line is never written to.
    A call that raises leaves the world as it was, but for the last
    case: there the file is left empty. *)
Theorem insert_header_raises_iff (path : Path) (w : World) (e : exn) :
  ((insert_header path w).1 = Raise e ↔
     (files w !! path_str path = None ∧ e = NotFound)
     ∨ (∃ f, files w !! path_str path = Some f ∧ text f = None ∧ e = ReadFailure)
     ∨ (∃ f t, files w !! path_str path = Some f ∧ text f = Some t
               ∧ list_contains (take 5 (splitlines t)) marker = false
               ∧ writable f = false ∧ e = WriteFailure)
     ∨ (∃ f t header,
          files w !! path_str path = Some f ∧ text f = Some t
          ∧ list_contains (take 5 (splitlines t)) marker = false
          ∧ writable f = true
          ∧ build_header path (choose_info (relative path)) = Some header
          ∧ encodable_b (text_of (spliced (splitlines t) header (insert_index (splitlines t))))
            = false
          ∧ e = EncodeFailure))
  ∧ ((insert_header path w).1 = Raise e → e ≠ EncodeFailure → (insert_header path w).2 = w)
  ∧ ((insert_header path w).1 = Raise e → e = EncodeFailure →
     (insert_header path w).2 = written w path []).
Proof.
  split.
  - destruct (files w !! path_str path) as [f|] eqn:Hf.
    2:{ unfold insert_header, bind, read_text. rewrite Hf. simpl. split.
        - intros [= <-]. by left.
        - intros [[_ ->] | [(f & ? & _) | [(f & t & ? & _) | (f & t & h & ? & _)]]]; done. }
    destruct (text f) as [t|] eqn:Ht.
    2:{ unfold insert_header, bind, read_text. rewrite Hf, Ht. simpl. split.
        - intros [= <-]. right. left. by exists f.
        - intros [[? _] | [(f' & _ & _ & ->) | [(f' & t & [= <-] & ? & _)
                                              | (f' & t & h & [= <-] & ? & _)]]];
            [done | done | congruence | congruence]. }
    destruct (list_contains (take 5 (splitlines t)) marker) eqn:Hm.
    { rewrite (insert_header_skips path w f t) by done. simpl. split; [done|].
      intros [[? _] | [(f' & [= <-] & ? & _) | [(f' & t' & [= <-] & ? & ? & _)
                                              | (f' & t' & h & [= <-] & ? & ? & _)]]];
        congruence. }
    destruct (build_header_total path _ (choose_info_tables (relative path))) as [header Hh].
    destruct (writable f) eqn:Hw.
    + rewrite (insert_header_writes path w f t header) by done. simpl.
      destruct (encodable_b _) eqn:He; simpl.
      * split; [done|].
        intros [[? _] | [(f' & [= <-] & ? & _) | [(f' & t' & [= <-] & _ & _ & ? & _)
                                                | (f' & t' & h & [= <-] & ? & _ & _ & ? & ? & _)]]];
          congruence.
      * split.
        -- intros [= <-]. right. right. right. by exists f, t, header.
        -- intros [[? _] | [(f' & [= <-] & ? & _) | [(f' & t' & [= <-] & _ & _ & ? & _)
                                                   | (f' & t' & h & _ & _ & _ & _ & _ & _ & ->)]]];
             congruence.
    + unfold insert_header, bind, read_text, write_text. rewrite Hf, Ht, Hm, Hh. simpl.
      rewrite Hf, Hw. simpl. split.
      * intros [= <-]. right. right. left. by exists f, t.
      * intros [[? _] | [(f' & [= <-] & ? & _) | [(f' & t' & _ & _ & _ & _ & ->)
                                                | (f' & t' & h & [= <-] & _ & _ & ? & _)]]];
          congruence.
  - destruct (insert_header path w) as [[[]|e'] w'] eqn:E; simpl; [by split|].
    apply insert_header_raises in E as [E1 E2].
    split; intros [= ->]; [apply E1 | apply E2].
Qed.

Lemma insert_header_raises_iff_witness :
  let w := {| files := {[ path_str blob_path := blob ]}; stdout := [] |} in
  (insert_header blob_path w).1 = Raise ReadFailure
  ∧ (insert_header blob_path w).2 = w.
Proof.
  intros w.
  assert (H : (insert_header blob_path w).1 = Raise ReadFailure).
  { apply (proj1 (insert_header_raises_iff blob_path w ReadFailure)).
    right. left. exists blob. split; [vm_compute; reflexivity | split; reflexivity]. }
  split; [exact H|].
  exact (proj1 (proj2 (insert_header_raises_iff blob_path w ReadFailure)) H
           ltac:(discriminate)).
Defined.

(** X7.  A call is local: it prints nothing, leaves every other file
    as it was, and neither makes nor removes a file. *)
Theorem insert_header_touches_one_file (path : Path) (w : World) :
  stdout (insert_header path w).2 = stdout w
  ∧ (∀ q, q ≠ path_str path → files (insert_header path w).2 !! q = files w !! q)
  ∧ dom (files (insert_header path w).2) = dom (files w).
Proof.
  destruct (insert_header_frame path w) as [H1 H2]. split; [done|]. split; [done|].
  unfold insert_header, bind, read_text, write_text, or_raise, ret, raise.
  destruct (files w !! path_str path) as [f|] eqn:Hf; [|done].
  destruct (text f) as [t|]; [|done].
  destruct (list_contains _ _); [done|].
  destruct (build_header _ _); [|done].
  rewrite Hf. destruct (writable f); [|done].
  destruct (encodable_b _); simpl; apply dom_insert_lookup_L; by eexists.
Qed.

(** ** Runs of main, further *)

Lemma main_loop_processed (paths acc : list Path) (w : World) :
  main_loop paths acc w = main_loop (processed paths) acc w.
Proof.
  revert acc w. induction paths as [|p paths IH]; intros acc w; [done|].
  unfold processed. rewrite filter_cons. simpl.
  destruct (contains (path_str p) (py "/vendor/")) eqn:E.
  - rewrite decide_False by done. apply IH.
  - rewrite decide_True by done. simpl. rewrite E. unfold bind.
    destruct (insert_header p w) as [[[]|e] w1]; [apply IH | done].
Qed.

(** X8.  Paths with "/vendor/" in them do not take part: [main] does
    on a batch what it does on the batch without them.  Their files
    are not read, so a vendored file that is no text stops nothing. *)
Theorem main_skips_vendor (paths : list Path) (w : World) :
  main paths w = main (processed paths) w.
Proof. unfold main, bind. by rewrite main_loop_processed. Qed.

(** X9.  When [main] returns, it has printed one line, and the number
    in it is the number of paths without "/vendor/" in the batch. *)
Theorem summary_counts_processed_paths (paths : list Path) (w w' : World) :
  main paths w = (Ok tt, w') →
  stdout w' = stdout w ++ [py "Updated " ++ decimal (length (processed paths)) ++ py " Go files"].
Proof. apply main_counts_processed. Qed.

Lemma summary_counts_processed_paths_witness :
  let t := text_of [py "package protocol"] in
  let w := world_of [(codec_path, t); (vendor_path, t); (frame_path, t)] in
  ∃ w', main [codec_path; vendor_path; frame_path] w = (Ok tt, w')
        ∧ stdout w' = [py "Updated 2 Go files"].
Proof.
  intros t w.
  destruct (main [codec_path; vendor_path; frame_path] w) as [[[]|e] w'] eqn:E;
    [|vm_compute in E; discriminate E].
  exists w'. split; [reflexivity|].
  exact (summary_counts_processed_paths [codec_path; vendor_path; frame_path] w w' E).
Defined.

Lemma insert_header_dom (path : Path) (w : World) :
  dom (files (insert_header path w).2) = dom (files w).
Proof.
  unfold insert_header, bind, read_text, write_text, or_raise, ret, raise.
  destruct (files w !! path_str path) as [f|] eqn:Hf; [|done].
  destruct (text f) as [t|]; [|done].
  destruct (list_contains _ _); [done|].
  destruct (build_header _ _); [|done].
  rewrite Hf. destruct (writable f); [|done].
  destruct (encodable_b _); simpl; apply dom_insert_lookup_L; by eexists.
Qed.

Lemma text_file_kept (p q : Path) (w : World) :
  text_file w p → text_file w q → text_file (insert_header p w).2 q.
Proof.
  intros (fp & tp & Hfp & Htp & Hwp & Hep) (f & t & Hf & Ht & Hw & He).
  destruct (decide (path_str q = path_str p)) as [Heq|Hne].
  - destruct (list_contains (take 5 (splitlines tp)) marker) eqn:Hm.
    + rewrite (insert_header_skips p w fp tp) by done. simpl. by exists f, t.
    + destruct (build_header_total p _ (choose_info_tables (relative p))) as [header Hh].
      rewrite (insert_header_rewrites p w fp tp header) by done.
      unfold written, text_file. simpl.
      eexists _, _. rewrite Heq, lookup_insert_eq. repeat split; try done.
      * by apply (encodes_new_text p tp header).
      * by destruct He as (_ & ? & _).
      * by destruct He as (_ & _ & ?).
  - destruct (insert_header_frame p w) as [_ H]. exists f, t. by rewrite H.
Qed.

Lemma main_loop_returns (paths acc : list Path) (w : World) :
  (∀ p, p ∈ processed paths → text_file w p) →
  ∃ w', main_loop paths acc w = (Ok (acc ++ processed paths), w').
Proof.
  rewrite main_loop_processed.
  assert (G : ∀ ps acc w, (∀ p, p ∈ ps → text_file w p) →
              Forall (λ p, contains (path_str p) (py "/vendor/") = false) ps →
              ∃ w', main_loop ps acc w = (Ok (acc ++ ps), w')).
  { clear. induction ps as [|p ps IH]; intros acc w Hall Hv.
    - exists w. simpl. by rewrite app_nil_r.
    - inversion Hv as [|? ? Hp Hps]; subst. simpl. rewrite Hp. unfold bind.
      pose proof (Hall p ltac:(by constructor)) as Hfile.
      destruct Hfile as (f & t & Hf & Ht & Hw & He).
      pose proof (insert_header_ok p w f t Hf Ht Hw He) as Hret.
      destruct (insert_header p w) as [[[]|e] w1] eqn:E; [|done].
      destruct (IH (acc ++ [p]) w1) as [w' Hw']; [|done|].
      + intros q Hq. replace w1 with (insert_header p w).2 by (by rewrite E).
        apply text_file_kept; apply Hall; by constructor.
      + exists w'. by rewrite Hw', <- app_assoc. }
  intros Hall. apply G; [done|].
  unfold processed. apply Forall_forall. by intros p [? _]%list_elem_of_filter.
Qed.

(** X10.  A batch goes through when each of its files outside
    vendored packages is text that can be written and has a text and a
    path that UTF-8 can encode: [main] returns and prints its summary,
    whatever else the files hold. *)
Theorem main_returns (paths : list Path) (w : World) :
  (∀ p, p ∈ processed paths → text_file w p) →
  ∃ w', main paths w = (Ok tt, w')
        ∧ stdout w' = stdout w ++ [py "Updated " ++ decimal (length (processed paths))
                                     ++ py " Go files"].
Proof.
  intros Hall. destruct (main_loop_returns paths [] w Hall) as [w1 H1].
  pose proof (main_loop_frame paths [] w) as [Hout _]. rewrite H1 in Hout.
  unfold main, bind, print. rewrite H1. eexists. split; [reflexivity|].
  simpl in *. by rewrite Hout.
Qed.

Lemma main_returns_witness :
  let t := text_of [py "package protocol"] in
  let w := {| files := <[path_str vendor_path := blob]>
                         (files (world_of [(codec_path, t); (frame_path, t)]));
              stdout := [] |} in
  ∃ w', main [vendor_path; codec_path; frame_path] w = (Ok tt, w')
        ∧ stdout w' = stdout w ++ [py "Updated " ++ decimal 2 ++ py " Go files"].
Proof.
  intros t w.
  apply (main_returns [vendor_path; codec_path; frame_path] w).
  intros p Hp. vm_compute in Hp.
  apply elem_of_cons in Hp as [-> | Hp]; [|apply elem_of_cons in Hp as [-> | Hp]].
  - eexists _, t. split; [vm_compute; reflexivity|].
    split; [reflexivity|]. split; [reflexivity | encodes_tac].
  - eexists _, t. split; [vm_compute; reflexivity|].
    split; [reflexivity|]. split; [reflexivity | encodes_tac].
  - by apply elem_of_nil in Hp.
Defined.

Lemma main_loop_dom (paths acc : list Path) (w : World) :
  dom (files (main_loop paths acc w).2) = dom (files w).
Proof.
  revert acc w. induction paths as [|p ps IH]; intros acc w; simpl; [done|].
  destruct (contains (path_str p) (py "/vendor/")); [apply IH|].
  unfold bind. pose proof (insert_header_dom p w) as Hdom.
  destruct (insert_header p w) as [[[]|e] w1]; simpl in *; [|done].
  by rewrite IH.
Qed.

(** X11.  [main] stays inside its batch: a file that is not one of the
    paths without "/vendor/" is after the run what it was before it,
    whether the run returns or raises, and no file is made or
    removed. *)
Theorem main_touches_its_batch_only (paths : list Path) (w : World) :
  (∀ q, q ∉ path_str <$> processed paths → files (main paths w).2 !! q = files w !! q)
  ∧ dom (files (main paths w).2) = dom (files w).
Proof.
  assert (Hfiles : files (main paths w).2 = files (main_loop (processed paths) [] w).2).
  { unfold main, bind, print. rewrite main_loop_processed.
    by destruct (main_loop (processed paths) [] w) as [[m|e] w1]. }
  rewrite Hfiles. split.
  - intros q Hq. by apply main_loop_frame.
  - apply main_loop_dom.
Qed.

(** ** The resolver, further *)

Lemma choose_loop_no_match (relative : str) (ks : list str) :
  (∀ k, k ∈ ks → matches relative k = false) →
  foldl (choose_step relative) None ks = None.
Proof.
  induction ks as [|k ks IH]; intros H; simpl; [done|].
  unfold choose_step at 2. rewrite (H k) by (by constructor).
  apply IH. intros k' Hk'. apply H. by constructor.
Qed.

Lemma dict_value_unique (d : list (str * Info)) (key : str) (v1 v2 : Info) :
  NoDup (keys d) → (key, v1) ∈ d → (key, v2) ∈ d → v1 = v2.
Proof.
  induction d as [|[k v] d IH]; intros Hnd H1 H2; [by apply elem_of_nil in H1|].
  apply NoDup_cons in Hnd as [Hk Hnd].
  assert (Hin : ∀ v', (k, v') ∈ d → False).
  { intros v' Hv'. apply Hk. unfold keys. apply list_elem_of_fmap. by exists (k, v'). }
  apply elem_of_cons in H1 as [E1 | H1]; apply elem_of_cons in H2 as [E2 | H2].
  - congruence.
  - injection E1 as -> ->. exfalso. by eapply Hin.
  - injection E2 as -> ->. exfalso. by eapply Hin.
  - by apply IH.
Qed.

Lemma resolves_unique (table : list (str * Info)) (relative : str) (i1 i2 : Info) :
  NoDup (keys table) → resolves table relative i1 → resolves table relative i2 → i1 = i2.
Proof.
  intros Hnd [(k1 & Hin1 & Hm1 & Hmax1) | [Hno1 ->]] [(k2 & Hin2 & Hm2 & Hmax2) | [Hno2 ->]].
  - assert (Hk1 : k1 ∈ keys table) by (unfold keys; apply list_elem_of_fmap; by exists (k1, i1)).
    assert (Hk2 : k2 ∈ keys table) by (unfold keys; apply list_elem_of_fmap; by exists (k2, i2)).
    destruct (decide (k1 = k2)) as [<- | Hne]; [by apply (dict_value_unique table k1)|].
    specialize (Hmax1 k2 Hk2 Hm2 ltac:(congruence)).
    specialize (Hmax2 k1 Hk1 Hm1 Hne). lia.
  - assert (Hk1 : k1 ∈ keys table) by (unfold keys; apply list_elem_of_fmap; by exists (k1, i1)).
    rewrite (Hno2 k1 Hk1) in Hm1. done.
  - assert (Hk2 : k2 ∈ keys table) by (unfold keys; apply list_elem_of_fmap; by exists (k2, i2)).
    rewrite (Hno1 k2 Hk2) in Hm2. done.
  - done.
Qed.

Lemma resolves_perm (table table' : list (str * Info)) (relative : str) (info : Info) :
  table ≡ₚ table' → resolves table relative info → resolves table' relative info.
Proof.
  intros Hp.
  assert (Hk : ∀ k, k ∈ keys table' → k ∈ keys table).
  { intros k. unfold keys. by rewrite Hp. }
  intros [(k & Hin & Hm & Hmax) | [Hno ->]].
  - left. exists k. split; [by rewrite <- Hp|]. split; [done|]. intros k' Hk'. by apply Hmax, Hk.
  - right. split; [|done]. intros k Hk'. by apply Hno, Hk.
Qed.

(** X12.  The order of the dict does not matter: two tables with the
    same entries in any order, each key once and none empty, resolve
    every path to the same dict. *)
Theorem choose_info_order_irrelevant (table table' : list (str * Info)) (relative : str) :
  table ≡ₚ table' → NoDup (keys table) → [] ∉ keys table →
  choose_info_in table relative = choose_info_in table' relative.
Proof.
  intros Hp Hnd Hne.
  assert (Hne' : [] ∉ keys table') by (unfold keys in *; by rewrite <- Hp).
  apply (resolves_unique table relative); [done | by apply choose_info_in_resolves |].
  apply (resolves_perm table' table); [done | by apply choose_info_in_resolves].
Qed.

Lemma choose_info_order_irrelevant_witness :
  choose_info_in DIR_INFO (py "apps/texelterm/parser/vt.go")
  = choose_info_in (reverse DIR_INFO) (py "apps/texelterm/parser/vt.go").
Proof.
  apply (choose_info_order_irrelevant DIR_INFO (reverse DIR_INFO)).
  - symmetry. apply reverse_Permutation.
  - apply (bool_decide_unpack _). vm_compute. exact I.
  - intros H. apply list_contains_spec in H. vm_compute in H. discriminate.
Defined.

(** X13.  A path without a slash that is not itself a key matches no
    key, whatever the table: a file directly under [ROOT] gets
    [DEFAULT_INFO]. *)
Theorem choose_info_top_level (table : list (str * Info)) (relative : str) :
  47%N ∉ relative → relative ∉ keys table →
  choose_info_in table relative = DEFAULT_INFO.
Proof.
  intros Hslash Hkey. unfold choose_info_in, best_key_in.
  rewrite choose_loop_no_match; [done|].
  intros k Hk. destruct (matches relative k) eqn:E; [|done].
  unfold matches in E. apply orb_true_iff in E as [E | E].
  - apply startswith_spec in E as [t ->]. exfalso. apply Hslash.
    rewrite <- app_assoc. apply elem_of_app. right. by constructor.
  - apply str_eqb_eq in E as ->. done.
Qed.

Lemma choose_info_top_level_witness :
  (47%N ∉ py "main.go") ∧ (py "main.go" ∉ keys DIR_INFO)
  ∧ choose_info (py "main.go") = DEFAULT_INFO.
Proof.
  assert (H1 : 47%N ∉ py "main.go").
  { intros H. apply list_elem_of_In in H. vm_compute in H. intuition discriminate. }
  assert (H2 : py "main.go" ∉ keys DIR_INFO).
  { intros H. apply list_contains_spec in H. vm_compute in H. discriminate. }
  split; [exact H1|]. split; [exact H2|].
  exact (choose_info_top_level DIR_INFO (py "main.go") H1 H2).
Defined.

(** ** humanise, further *)

Lemma split_nil (s : str) : split s = [] → Forall (λ c, is_space c = true) s.
Proof.
  induction s as [|c s IH]; simpl; [constructor|].
  destruct (is_space c) eqn:E; [by constructor; auto|].
  destruct s as [|d s]; [done|].
  destruct (is_space d); [done|]. by destruct (split (d :: s)).
Qed.

Lemma split_words_of (P : N → Prop) (s : str) :
  Forall P s →
  Forall (λ w, w ≠ [] ∧ Forall (λ c, is_space c = false ∧ P c) w) (split s).
Proof.
  induction 1 as [|c s Hc Hs IH]; simpl; [constructor|].
  destruct (is_space c) eqn:E; [done|].
  destruct s as [|d s]; [by repeat constructor|].
  destruct (is_space d).
  - constructor; [by repeat constructor | done].
  - destruct (split (d :: s)) as [|w ws]; [by repeat constructor|].
    inversion IH as [|? ? [Hw1 Hw2] Hws]; subst.
    constructor; [|done]. split; [done|]. by constructor.
Qed.

Lemma norm_space_sep (c : N) : is_space (norm c) = true → is_sep c = true.
Proof.
  intros H. destruct (is_sep c) eqn:E; [done|].
  destruct (norm_nonsep c E) as [Hn Hs]. congruence.
Qed.

Lemma norm_nonspace_word (c : N) : is_space (norm c) = false → is_sep (norm c) = false.
Proof.
  unfold is_sep, norm. destruct (N.eqb c 95) eqn:E1; [done|].
  destruct (N.eqb c 45) eqn:E2; [done|]. intros ->. by rewrite E1, E2.
Qed.

Lemma join_woven (w : str) (ws : list str) :
  join (py " ") (w :: ws) = woven w ((λ w', (py " ", w')) <$> ws).
Proof.
  revert w. induction ws as [|w' ws IH]; intros w; [done|].
  change (join (py " ") (w :: w' :: ws)) with (w ++ py " " ++ join (py " ") (w' :: ws)).
  by rewrite IH.
Qed.

(** The two ways [humanise] can go. *)
Lemma humanise_dichotomy (name : str) :
  (Forall (λ c, is_sep c = true) name ∧ humanise name = name)
  ∨ (∃ w ws, Forall is_word (w :: ws) ∧ humanise name = join (py " ") (w :: ws)).
Proof.
  unfold humanise. rewrite replace_replace.
  destruct (split (norm <$> name)) as [|w ws] eqn:E.
  - left. split; [|done]. apply split_nil in E.
    apply Forall_fmap in E. eapply Forall_impl; [exact E|].
    intros c Hc. by apply norm_space_sep.
  - right. exists w, ws. split; [|done].
    assert (H : Forall (λ c, ∃ c0, c = norm c0) (norm <$> name)).
    { apply Forall_fmap, Forall_true. intros c. by exists c. }
    apply split_words_of in H. rewrite E in H.
    eapply Forall_impl; [exact H|]. intros v [Hne Hv]. split; [done|].
    eapply Forall_impl; [exact Hv|]. intros c [Hs [c0 ->]]. by apply norm_nonspace_word.
Qed.

Lemma humanise_join_words (w : str) (ws : list str) :
  Forall is_word (w :: ws) → humanise (join (py " ") (w :: ws)) = join (py " ") (w :: ws).
Proof.
  intros H. inversion H as [|? ? Hw Hws]; subst.
  rewrite join_woven.
  pose proof (humanise_woven [] w ((λ w', (py " ", w')) <$> ws) []) as G.
  rewrite app_nil_r in G. simpl in G. rewrite G; try done.
  - rewrite <- join_woven. f_equal. f_equal. rewrite <- list_fmap_compose.
    by rewrite list_fmap_id.
  - apply Forall_fmap. eapply Forall_impl; [exact Hws|]. intros v Hv. simpl.
    split; [|done]. split; [done | by repeat constructor].
Qed.

(** X14.  What [humanise] returns.  A name made of separators ("_",
    "-", whitespace) only, the empty name among them, comes back as it
    is.  Every other name has words, the non-empty runs of its other
    characters, and [humanise] returns these words, in their order,
    joined by single spaces. *)
Theorem humanise_result :
  (∀ name, Forall (λ c, is_sep c = true) name → humanise name = name)
  ∧ (∀ name ws, words_of name ws → humanise name = join (py " ") ws)
  ∧ (∀ name, Forall (λ c, is_sep c = true) name ∨ ∃ ws, words_of name ws).
Proof.
  split; [exact humanise_no_word|]. split; [exact humanise_words | exact name_words].
Qed.

Lemma humanise_result_witness :
  words_of (py "__foo--bar baz_") [py "foo"; py "bar"; py "baz"]
  ∧ humanise (py "__foo--bar baz_") = py "foo bar baz"
  ∧ humanise (py "_- _") = py "_- _".
Proof.
  assert (H : words_of (py "__foo--bar baz_") [py "foo"; py "bar"; py "baz"]).
  { exists (py "__"), (py "foo"), [(py "--", py "bar"); (py " ", py "baz")], (py "_").
    split; [reflexivity|]. split; [by repeat constructor|].
    split; [split; [done | by repeat constructor]|].
    split; [|split; [by repeat constructor | reflexivity]].
    repeat (constructor; [split; split; try done; by repeat constructor|]). constructor. }
  split; [exact H|].
  split; [exact (proj1 (proj2 humanise_result) _ _ H)|].
  apply (proj1 humanise_result). by repeat constructor.
Defined.

(** X15.  [humanise] is idempotent: a humanised name is humanised to
    itself. *)
Theorem humanise_idempotent (name : str) : humanise (humanise name) = humanise name.
Proof.
  destruct (humanise_dichotomy name) as [[_ H] | (w & ws & Hw & H)].
  - by rewrite !H.
  - rewrite H. by apply humanise_join_words.
Qed.

(** ** The text a rewrite leaves *)

Lemma text_of_linebreaks (ls : list str) :
  Forall one_line ls → Forall (λ c, is_linebreak c = true → c = 10%N) (text_of ls).
Proof.
  induction 1 as [|l ls Hl _ IH]; [constructor|].
  change (text_of (l :: ls)) with ((l ++ [10%N]) ++ text_of ls).
  repeat apply Forall_app_2; [|by repeat constructor | done].
  eapply Forall_impl; [exact Hl|]. intros c Hc. simpl in Hc. congruence.
Qed.

Lemma text_of_ends (ls : list str) : ls ≠ [] → ∃ body, text_of ls = body ++ [10%N].
Proof.
  intros Hne. destruct (exists_last Hne) as (ls' & l & ->).
  exists (text_of ls' ++ l). rewrite text_of_app. unfold text_of at 2. simpl.
  by rewrite app_nil_r, app_assoc.
Qed.

Lemma splitlines_text_of_any (ls : list str) : Forall one_line ls → splitlines (text_of ls) = ls.
Proof. destruct ls; [done|]. by apply splitlines_text_of. Qed.

(** X16.  A rewrite (of a readable and writable file without a marker
    line, text and path that UTF-8 can encode) ends every line with one
    line feed: in the text it writes no carriage return or other line terminator is left (for
    a path without one in it), and the text ends with a line feed, also
    when the old text did not. *)
Theorem rewrite_ends_lines_with_line_feed (path : Path) (w : World) (f : File) (t : str) :
  files w !! path_str path = Some f → text f = Some t → writable f = true →
  list_contains (take 5 (splitlines t)) marker = false →
  encodes path t →
  ∃ new,
    content (insert_header path w).2 path = Some new
    ∧ (∃ body, new = body ++ [10%N])
    ∧ (one_line (relative path) → one_line (stem path) →
       Forall (λ c, is_linebreak c = true → c = 10%N) new).
Proof.
  intros Hf Ht Hw Hm He.
  pose proof (choose_info_tables (relative path)) as Hin.
  destruct (build_header_total path _ Hin) as [header Hh].
  rewrite (insert_header_rewrites path w f t header) by done.
  eexists. unfold content. simpl. rewrite lookup_insert_eq. simpl.
  split; [reflexivity|]. split.
  - apply text_of_ends. intros E. apply (f_equal length) in E. unfold spliced in E.
    rewrite !length_app in E. simpl in E. lia.
  - intros Hr Hs. apply text_of_linebreaks. unfold spliced.
    pose proof (splitlines_one_line t).
    repeat apply Forall_app_2.
    + by apply Forall_take.
    + by apply (build_header_one_line path _ header Hr Hs Hin).
    + by repeat constructor.
    + by apply Forall_drop.
Qed.

Lemma rewrite_ends_lines_with_line_feed_witness :
  let t := py "package protocol" ++ [13%N; 10%N] ++ py "func f() {}" in
  let w := world_of [(codec_path, t)] in
  ∃ new,
    content (insert_header codec_path w).2 codec_path = Some new
    ∧ (∃ body, new = body ++ [10%N])
    ∧ (one_line (relative codec_path) → one_line (stem codec_path) →
       Forall (λ c, is_linebreak c = true → c = 10%N) new).
Proof.
  intros t w.
  assert (H1 : files w !! path_str codec_path = Some {| text := Some t; writable := true |})
    by (vm_compute; reflexivity).
  assert (He : encodes codec_path t) by encodes_tac.
  exact (rewrite_ends_lines_with_line_feed codec_path w _ t H1 eq_refl eq_refl eq_refl He).
Defined.

(** X17.  In a file whose lines each end with a line feed (readable,
    writable, no marker line, text and path that UTF-8 can encode) the
    rewrite changes no character: the old text is cut at the line boundary of
    the insertion index, and the header lines and one empty line, each
    with its line feed, are put in between the two parts. *)
Theorem lf_file_only_gains_header (path : Path) (w : World) (f : File) (lines : list str) :
  files w !! path_str path = Some f → text f = Some (text_of lines) → writable f = true →
  Forall one_line lines →
  list_contains (take 5 lines) marker = false →
  encodes path (text_of lines) →
  ∃ header,
    build_header path (choose_info (relative path)) = Some header
    ∧ text_of lines
      = text_of (take (insert_index lines) lines) ++ text_of (drop (insert_index lines) lines)
    ∧ content (insert_header path w).2 path
      = Some (text_of (take (insert_index lines) lines)
              ++ text_of header ++ [10%N]
              ++ text_of (drop (insert_index lines) lines)).
Proof.
  intros Hf Ht Hw Hl Hm He.
  pose proof (splitlines_text_of_any lines Hl) as Hsplit.
  destruct (build_header_total path _ (choose_info_tables (relative path))) as [header Hh].
  exists header. split; [done|].
  split; [by rewrite <- text_of_app, take_drop|].
  rewrite (insert_header_rewrites path w f (text_of lines) header) by (try done; by rewrite Hsplit).
  unfold content. simpl. rewrite lookup_insert_eq. simpl.
  rewrite Hsplit. unfold spliced. by rewrite !text_of_app.
Qed.

Lemma lf_file_only_gains_header_witness :
  let lines := [py "//go:build linux"; []; py "package protocol"] in
  let w := world_of [(codec_path, text_of lines)] in
  content (insert_header codec_path w).2 codec_path
  = Some (text_of [py "//go:build linux"; []]
          ++ text_of codec_header ++ [10%N]
          ++ text_of [py "package protocol"]).
Proof.
  intros lines w.
  assert (H1 : files w !! path_str codec_path
               = Some {| text := Some (text_of lines); writable := true |})
    by (vm_compute; reflexivity).
  assert (H2 : Forall one_line lines).
  { repeat (apply Forall_cons; split; [apply one_line_py_check; reflexivity|]). constructor. }
  assert (He : encodes codec_path (text_of lines)) by encodes_tac.
  destruct (lf_file_only_gains_header codec_path w _ lines H1 eq_refl eq_refl H2 eq_refl He)
    as (header & Hh & _ & Hc).
  injection Hh as <-. exact Hc.
Defined.

(** ** The usage line *)

Lemma format_literal (a rest feature component : str) :
  brace_free a →
  format_from Literal feature component (a ++ rest)
  = map_formatted (app a) (format_from Literal feature component rest).
Proof.
  induction 1 as [|c a [H1 H2] _ IH]; simpl.
  - by destruct (format_from _ _ _ _).
  - apply N.eqb_neq in H1, H2. rewrite H1, H2, IH.
    by destruct (format_from Literal feature component rest).
Qed.

Lemma format_feature_field (rest feature component : str) :
  format_from Literal feature component (py "{feature}" ++ rest)
  = map_formatted (app feature) (format_from Literal feature component rest).
Proof. reflexivity. Qed.

Lemma format_one_field (a b feature component : str) :
  brace_free a → brace_free b →
  format a feature component = Some a
  ∧ format (a ++ py "{feature}" ++ b) feature component = Some (a ++ feature ++ b).
Proof.
  intros Ha Hb. unfold format. split.
  - rewrite <- (app_nil_r a) at 1. rewrite format_literal by done. simpl. by rewrite app_nil_r.
  - rewrite format_literal, format_feature_field by done.
    rewrite <- (app_nil_r b) at 1. rewrite format_literal by done. simpl. by rewrite app_nil_r.
Qed.

(** X18.  The usage line of a production file (a base name ending
    neither with "_test" nor with "_tests").  A template without braces
    is the usage line as it stands; a template with one field
    [{feature}] between brace-free parts is the usage line with the
    feature label in the place of the field. *)
Theorem production_usage (base : str) (info : Info) (a b : str) :
  endswith base (py "_test") = false → endswith base (py "_tests") = false →
  brace_free a → brace_free b →
  (usage_template info = a →
   summary_usage base info
   = Some (py "Implements " ++ feature_of base ++ py " capabilities for the "
             ++ component info ++ py ".", a))
  ∧ (usage_template info = a ++ py "{feature}" ++ b →
     summary_usage base info
     = Some (py "Implements " ++ feature_of base ++ py " capabilities for the "
               ++ component info ++ py ".", a ++ feature_of base ++ b)).
Proof.
  intros H1 H2 Ha Hb.
  rewrite (summary_usage_production base info H1 H2).
  rewrite feature_of_label, (cut_suffix_other base H1).
  destruct (format_one_field a b (label (humanise base)) (component info) Ha Hb) as [F1 F2].
  split; intros ->; [by rewrite F1 | by rewrite F2].
Qed.

Lemma production_usage_witness :
  summary_usage (py "codec") (choose_info (py "protocol/codec.go"))
  = Some (py "Implements codec capabilities for the protocol definitions.",
          py "Shared by clients and servers to encode codec messages over the wire.").
Proof.
  assert (Ha : brace_free (py "Shared by clients and servers to encode ")).
  { apply Forall_forall. intros c Hc%list_elem_of_In. vm_compute in Hc.
    split; intros ->; intuition discriminate. }
  assert (Hb : brace_free (py " messages over the wire.")).
  { apply Forall_forall. intros c Hc%list_elem_of_In. vm_compute in Hc.
    split; intros ->; intuition discriminate. }
  exact (proj2 (production_usage (py "codec") (choose_info (py "protocol/codec.go"))
                  (py "Shared by clients and servers to encode ")
                  (py " messages over the wire.") eq_refl eq_refl Ha Hb) eq_refl).
Defined.

(** ** How calls compose *)

Lemma insert_header_world (path : Path) (w : World) :
  (insert_header path w).2
  = match rewrite_of path (files w !! path_str path) with
    | Some new => written w path new
    | None => w
    end.
Proof.
  destruct (files w !! path_str path) as [f|] eqn:Hf.
  2:{ unfold insert_header, bind, read_text. by rewrite Hf. }
  destruct (text f) as [t|] eqn:Ht.
  2:{ unfold insert_header, bind, read_text. rewrite Hf, Ht. simpl. by rewrite Ht. }
  simpl. rewrite Ht. simpl.
  destruct (list_contains (take 5 (splitlines t)) marker) eqn:Hm.
  { by rewrite (insert_header_skips path w f t). }
  destruct (build_header_total path _ (choose_info_tables (relative path))) as [header Hh].
  rewrite Hh. simpl. destruct (writable f) eqn:Hw.
  - rewrite (insert_header_writes path w f t header) by done. simpl.
    by destruct (encodable_b _).
  - unfold insert_header, bind, read_text, write_text. rewrite Hf, Ht, Hm, Hh. simpl.
    by rewrite Hf, Hw.
Qed.

(** X19.  Calls on two different files commute: the world after both
    is the same in either order, whether the calls write, skip or
    raise. *)
Theorem calls_on_two_files_commute (p q : Path) (w : World) :
  path_str p ≠ path_str q →
  (insert_header q (insert_header p w).2).2 = (insert_header p (insert_header q w).2).2.
Proof.
  intros Hne.
  assert (Hq : files (insert_header p w).2 !! path_str q = files w !! path_str q).
  { by apply insert_header_frame. }
  assert (Hp : files (insert_header q w).2 !! path_str p = files w !! path_str p).
  { apply insert_header_frame. congruence. }
  rewrite (insert_header_world q (insert_header p w).2), Hq.
  rewrite (insert_header_world p (insert_header q w).2), Hp.
  rewrite (insert_header_world p w), (insert_header_world q w).
  destruct (rewrite_of p (files w !! path_str p)) as [a|];
    destruct (rewrite_of q (files w !! path_str q)) as [b|]; try done.
  unfold written. simpl. f_equal. by apply insert_insert_ne.
Qed.

Lemma calls_on_two_files_commute_witness :
  let t := text_of [py "package protocol"] in
  let w := world_of [(codec_path, t); (frame_path, t)] in
  (insert_header frame_path (insert_header codec_path w).2).2
  = (insert_header codec_path (insert_header frame_path w).2).2.
Proof.
  intros t w. apply (calls_on_two_files_commute codec_path frame_path w).
  vm_compute. discriminate.
Defined.

(** X20.  Batches compose: the loop of [main] over two batches one
    after the other is the loop over the first, followed, if that
    returned, by the loop over the second from the world and the list
    the first left; if the first raised, nothing of the second is
    touched. *)
Theorem batches_compose (pre post acc : list Path) (w : World) :
  main_loop (pre ++ post) acc w
  = match main_loop pre acc w with
    | (Ok m, w') => main_loop post m w'
    | (Raise e, w') => (Raise e, w')
    end.
Proof. apply main_loop_app. Qed.

(** X21.  A file with a line among its first five that is the marker
    is left alone: the call returns, writes nothing and prints
    nothing, also when the file could not be written. *)
Theorem marker_line_file_is_left_alone (path : Path) (w : World) (f : File) (t : str) :
  files w !! path_str path = Some f → text f = Some t →
  marker ∈ take 5 (splitlines t) →
  insert_header path w = (Ok tt, w).
Proof. apply marker_line_skips. Qed.

Lemma marker_line_file_is_left_alone_witness :
  let t := text_of [py "// generated"; py "SPDX-License-Identifier"; py "package protocol"] in
  let w := {| files := {[ path_str codec_path := {| text := Some t; writable := false |} ]};
              stdout := [] |} in
  insert_header codec_path w = (Ok tt, w).
Proof.
  intros t w.
  apply (marker_line_file_is_left_alone codec_path w {| text := Some t; writable := false |} t).
  - vm_compute. reflexivity.
  - reflexivity.
  - apply list_contains_spec. reflexivity.
Defined.

(** ** A path that cannot be encoded *)

Lemma text_of_line_chars (P : N → Prop) (ls : list str) (l : str) :
  Forall P (text_of ls) → l ∈ ls → Forall P l.
Proof.
  unfold text_of. rewrite Forall_concat, Forall_fmap, Forall_forall.
  intros H Hl. specialize (H l Hl). simpl in H. by apply Forall_app in H as [? _].
Qed.

Lemma header_file_line (path : Path) (info : Info) (header : list str) :
  build_header path info = Some header → py "// File: " ++ relative path ∈ header.
Proof.
  unfold build_header. destruct (summary_usage _ _) as [[s u]|]; [|done].
  intros <-%(inj Some). do 3 constructor. by constructor.
Qed.

(** X22.  The header names the file, so a path that UTF-8 cannot
    encode cannot be written back: on a readable and writable file
    without a marker line, [insert_header] then raises in the encoding,
    after the file was opened for writing, and leaves the file
    empty. *)
Theorem unencodable_path_empties_file (path : Path) (w : World) (f : File) (t : str) :
  files w !! path_str path = Some f → text f = Some t → writable f = true →
  list_contains (take 5 (splitlines t)) marker = false →
  ¬ encodable (relative path) →
  insert_header path w = (Raise EncodeFailure, written w path []).
Proof.
  intros Hf Ht Hw Hm Hr.
  destruct (build_header_total path _ (choose_info_tables (relative path))) as [header Hh].
  rewrite (insert_header_writes path w f t header) by done. simpl.
  destruct (encodable_b _) eqn:E; [|done].
  exfalso. apply Hr. apply encodable_spec in E.
  apply (text_of_line_chars _ _ (py "// File: " ++ relative path)) in E.
  - by apply Forall_app in E as [_ ?].
  - unfold spliced. apply elem_of_app. right. apply elem_of_app. left.
    by apply (header_file_line path (choose_info (relative path)) header).
Qed.

Lemma unencodable_path_empties_file_witness :
  let t := text_of [py "package protocol"] in
  let w := world_of [(odd_path, t)] in
  (¬ encodable (relative odd_path))
  ∧ insert_header odd_path w = (Raise EncodeFailure, written w odd_path [])
  ∧ content (insert_header odd_path w).2 odd_path = Some [].
Proof.
  intros t w.
  assert (Hr : ¬ encodable (relative odd_path)).
  { intros H. apply encodable_spec in H. vm_compute in H. discriminate. }
  assert (H1 : files w !! path_str odd_path = Some {| text := Some t; writable := true |})
    by (vm_compute; reflexivity).
  pose proof (unencodable_path_empties_file odd_path w _ t H1 eq_refl eq_refl eq_refl Hr) as H.
  split; [exact Hr|]. split; [exact H|]. rewrite H. vm_compute. reflexivity.
Defined.
